(** * vite-fix-naiveui-icon: the patch pipeline of [src/vite-fix-naiveui-icon.ts]

    A shallow embedding of the plugin factory [ViteFixNaiveuiIcon] and of the
    helpers beside it ([compareVersion], [getNaiveUIVersion],
    [getVirtualPath]), together with the parts of JavaScript, magic-string
    and Rollup's [createFilter] that the file calls.  The hooks of the three
    plugins are functions of the variables they share; the [apply] and
    [enforce] entries, which tell Vite when and in which order to run a
    plugin, appear only in the order of [pipeline].

    Texts are JavaScript strings: sequences of UTF-16 code units addressed by
    index.  A text is a [list ascii] here, one [ascii] per code unit, so the
    model covers the code units below 256; source positions are [nat]. *)

From Stdlib Require Import ZArith QArith String Ascii List Bool Lia Arith.
Import ListNotations.

Definition text := list ascii.

(** String literals of the source are written as Rocq string literals. *)
Coercion list_ascii_of_string : string >-> list.

#[local] Open Scope string_scope.
#[local] Open Scope list_scope.
#[local] Open Scope nat_scope.

(** ** JavaScript strings *)

Module JS.

Definition text_eqb (a b : text) : bool :=
  if list_eq_dec ascii_dec a b then true else false.

(** [s.startsWith(p)] *)
Fixpoint startsWith (p s : text) : bool :=
  match p, s with
  | [], _ => true
  | _ :: _, [] => false
  | a :: p', b :: s' => Ascii.eqb a b && startsWith p' s'
  end.

(** [s.indexOf(p)], with [None] for the [-1] of JavaScript. *)
Fixpoint indexOf (p s : text) : option nat :=
  if startsWith p s then Some 0
  else match s with
       | [] => None
       | _ :: s' => option_map S (indexOf p s')
       end.

(** [s.includes(p)] *)
Definition includes (p s : text) : bool :=
  match indexOf p s with Some _ => true | None => false end.

(** [s.slice(a, b)] for [0 <= a] and [0 <= b]: the code units from [a] up to
    [b], clipped to the text, empty when [b <= a]. *)
Definition slice (s : text) (a b : nat) : text :=
  firstn (b - a) (skipn a s).

(** [s.split(sep)] for a separator of one code unit: ["".split(".")] is
    [[""]], and a trailing separator leaves a last empty piece. *)
Fixpoint split (sep : ascii) (s : text) : list text :=
  match s with
  | [] => [[]]
  | c :: s' =>
      if Ascii.eqb c sep then [] :: split sep s'
      else match split sep s' with
           | piece :: pieces => (c :: piece) :: pieces
           | [] => [[c]]
           end
  end.

(** [s.endsWith(p)] *)
Definition endsWith (p s : text) : bool :=
  startsWith (rev p) (rev s).

(** The replacement text of [String.prototype.replace] for a string pattern
    (GetSubstitution with no captures): in the template, [$$] stands for a
    dollar sign, [$&] for the matched text, [$`] for the text before the
    match and [$'] for the text after it; every other character, and a
    dollar sign before anything else, stands for itself. *)
Fixpoint GetSubstitution (matched before after template : text) : text :=
  match template with
  | [] => []
  | c :: rest =>
      if Ascii.eqb c "$" then
        match rest with
        | [] => [c]
        | d :: rest' =>
            if Ascii.eqb d "$" then "$"%char :: GetSubstitution matched before after rest'
            else if Ascii.eqb d "&" then matched ++ GetSubstitution matched before after rest'
            else if Ascii.eqb d "`" then before ++ GetSubstitution matched before after rest'
            else if Ascii.eqb d "'" then after ++ GetSubstitution matched before after rest'
            else c :: GetSubstitution matched before after rest
        end
      else c :: GetSubstitution matched before after rest
  end.

(** [s.replace(pattern, replacement)] with a string pattern: the first
    occurrence only, the replacement read as a template. *)
Definition replace (pattern replacement s : text) : text :=
  match indexOf pattern s with
  | None => s
  | Some i =>
      let before := firstn i s in
      let after := skipn (i + length pattern) s in
      before ++ GetSubstitution pattern before after replacement ++ after
  end.

End JS.

(** ** JavaScript numbers

    A JavaScript number is an IEEE 754 double: [NaN], the two infinities,
    or a rational that the format holds.  A finite number is modelled by the
    rational it denotes; the two zeros are one number here, which no
    operation of this program tells apart ([-0] is falsy and compares equal
    to [0]).  Rounding is to the nearest double, ties to the even
    significand, with [Infinity] from [2^1024 - 2^970] on. *)

Module Num.

Inductive number : Type :=
  | NaN
  | Finite (q : Q)
  | Infinity
  | NegInfinity.

#[local] Open Scope Z_scope.

(** The double nearest to the non-negative integer [n]. *)
Definition to_double (n : Z) : number :=
  if n <? 2 ^ 53 then Finite (inject_Z n)
  else
    let e := Z.log2 n - 52 in
    let q := Z.shiftr n e in
    let r := Z.land n (Z.ones e) in
    let half := 2 ^ (e - 1) in
    let m := if r <? half then q
             else if half <? r then q + 1
             else if Z.even q then q else q + 1 in
    let v := Z.shiftl m e in
    if v <? 2 ^ 1024 then Finite (inject_Z v) else Infinity.

(** The quotient and the remainder of [a / (b * 2^k)], with the divisor. *)
Definition scaled (a b k : Z) : Z * Z * Z :=
  let num := if k <? 0 then a * 2 ^ (- k) else a in
  let den := if k <? 0 then b else b * 2 ^ k in
  (num / den, num mod den, den).

(** The double nearest to the ratio [a / b], for [0 <= a] and [0 < b]: the
    significand has 53 bits above the smallest exponent, [-1074], and what
    is left at that exponent below it. *)
Definition round_ratio (a b : Z) : number :=
  if a <=? 0 then Finite 0
  else
    let k0 := Z.log2 a - Z.log2 b - 53 in
    let k1 := if fst (fst (scaled a b k0)) <? 2 ^ 53 then k0 else k0 + 1 in
    let k := Z.max k1 (-1074) in
    let '(q, r, den) := scaled a b k in
    let m := if 2 * r <? den then q
             else if den <? 2 * r then q + 1
             else if Z.even q then q else q + 1 in
    if k <? 0 then Finite (Qred (Qmake m (Z.to_pos (2 ^ (- k)))))
    else if m * 2 ^ k <? 2 ^ 1024 then Finite (inject_Z (m * 2 ^ k))
    else Infinity.

Definition negate (x : number) : number :=
  match x with
  | NaN => NaN
  | Finite q => Finite (Qopp q)
  | Infinity => NegInfinity
  | NegInfinity => Infinity
  end.

Definition is_digit (c : ascii) : bool :=
  let n := nat_of_ascii c in (48 <=? n)%nat && (n <=? 57)%nat.

Definition digit_value (c : ascii) : Z := Z.of_nat (nat_of_ascii c) - 48.

(** The mathematical value of a string of decimal digits. *)
Definition decimal (s : text) : Z :=
  fold_left (fun acc c => 10 * acc + digit_value c) s 0.

(** The value of a digit in a radix up to sixteen, if it is one. *)
Definition digit_in (radix : Z) (c : ascii) : option Z :=
  let n := Z.of_nat (nat_of_ascii c) in
  let v := if (48 <=? n) && (n <=? 57) then n - 48
           else if (97 <=? n) && (n <=? 102) then n - 87
           else if (65 <=? n) && (n <=? 70) then n - 55
           else radix in
  if v <? radix then Some v else None.

Fixpoint in_radix (radix : Z) (s : text) (acc : Z) : option Z :=
  match s with
  | [] => Some acc
  | c :: s' =>
      match digit_in radix c with
      | Some v => in_radix radix s' (radix * acc + v)
      | None => None
      end
  end.

(** [0x], [0o] and [0b] literals, in either case of the letter, with at
    least one digit. *)
Definition non_decimal (s : text) : option Z :=
  match s with
  | zero :: letter :: (_ :: _) as digits =>
      if Ascii.eqb zero "0" then
        if Ascii.eqb letter "x" || Ascii.eqb letter "X" then in_radix 16 digits 0
        else if Ascii.eqb letter "o" || Ascii.eqb letter "O" then in_radix 8 digits 0
        else if Ascii.eqb letter "b" || Ascii.eqb letter "B" then in_radix 2 digits 0
        else None
      else None
  | _ => None
  end.

(** The white space and line terminators below 256. *)
Definition white_space (c : ascii) : bool :=
  let n := nat_of_ascii c in
  (((9 <=? n) && (n <=? 13)) || (n =? 32) || (n =? 160))%nat.

Fixpoint trim_start (s : text) : text :=
  match s with
  | c :: s' => if white_space c then trim_start s' else s
  | [] => []
  end.

Definition trim (s : text) : text :=
  rev (trim_start (rev (trim_start s))).

(** The longest run of decimal digits at the start, and the rest. *)
Fixpoint digits_then (s : text) : text * text :=
  match s with
  | c :: s' =>
      if is_digit c then let (d, rest) := digits_then s' in (c :: d, rest)
      else ([], s)
  | [] => ([], [])
  end.

Definition nonempty (s : text) : bool :=
  match s with [] => false | _ :: _ => true end.

(** What follows the [e] of an exponent part: an optional sign and at
    least one digit. *)
Definition exponent (s : text) : option Z :=
  let signed (sign : Z) (digits : text) :=
    if nonempty digits && forallb is_digit digits
    then Some (sign * decimal digits) else None in
  match s with
  | c :: digits =>
      if Ascii.eqb c "+" then signed 1 digits
      else if Ascii.eqb c "-" then signed (-1) digits
      else signed 1 s
  | [] => None
  end.

(** An unsigned decimal literal other than [Infinity]: digits, a dot and
    digits (one of the two runs may be empty), an exponent part; the value
    is the first component times ten to the second. *)
Definition unsigned_decimal (s : text) : option (Z * Z) :=
  let (whole, after_whole) := digits_then s in
  let '(fraction, dotted, after_fraction) :=
    match after_whole with
    | c :: r =>
        if Ascii.eqb c "."
        then let (f, r') := digits_then r in (f, true, r')
        else ([], false, after_whole)
    | [] => ([], false, [])
    end in
  if nonempty whole || (dotted && nonempty fraction) then
    let mantissa := decimal (whole ++ fraction) in
    let shift := Z.of_nat (length fraction) in
    match after_fraction with
    | [] => Some (mantissa, - shift)
    | c :: r =>
        if Ascii.eqb c "e" || Ascii.eqb c "E" then
          match exponent r with
          | Some e => Some (mantissa, e - shift)
          | None => None
          end
        else None
    end
  else None.

(** [Number(s)], the conversion of a string to a number: white space and
    line terminators around the literal are dropped, an empty literal is
    [0], and a literal is a radix-prefixed integer, or an optional sign
    before [Infinity] or a decimal literal; every other string is [NaN].
    A decimal literal with more than twenty significant digits may be read
    with the digits after the twentieth replaced by zeros; the value here
    is the one the engines give, the nearest double. *)
Definition Number (s : text) : number :=
  let literal := trim s in
  match literal with
  | [] => Finite 0
  | first :: rest =>
      match non_decimal literal with
      | Some n => to_double n
      | None =>
          let negative := Ascii.eqb first "-" in
          let unsigned :=
            if negative || Ascii.eqb first "+" then rest else literal in
          let magnitude :=
            if JS.text_eqb unsigned "Infinity" then Infinity
            else
              match unsigned_decimal unsigned with
              | Some (mantissa, e) =>
                  if 0 <=? e then to_double (mantissa * 10 ^ e)
                  else round_ratio mantissa (10 ^ (- e))
              | None => NaN
              end in
          if negative then negate magnitude else magnitude
      end
  end.

(** [x || 0] for [x] a number or [undefined] ([None]): the falsy numbers are
    [NaN] and zero, and a zero stays a zero. *)
Definition or_zero (x : option number) : number :=
  match x with
  | None => Finite 0
  | Some NaN => Finite 0
  | Some (Finite q) => Finite q
  | Some Infinity => Infinity
  | Some NegInfinity => NegInfinity
  end.

(** [a > b] and [a < b] on numbers; a comparison with [NaN] is false. *)
Definition gt (a b : number) : bool :=
  match a, b with
  | Finite x, Finite y => negb (Qle_bool x y)
  | Infinity, Finite _ => true
  | Infinity, NegInfinity => true
  | Finite _, NegInfinity => true
  | _, _ => false
  end.

Definition lt (a b : number) : bool := gt b a.

(** [a === b] on numbers. *)
Definition eqb (a b : number) : bool :=
  match a, b with
  | Finite x, Finite y => Qeq_bool x y
  | Infinity, Infinity => true
  | NegInfinity, NegInfinity => true
  | _, _ => false
  end.

End Num.


(** ** Version gate *)

(** [compareVersion(version, target)]: the loop runs [i] from [0] while
    [i < Math.max(v1.length, v2.length)]; [remaining] counts the iterations
    left. *)
Fixpoint compare_from (v1 v2 : list Num.number) (i remaining : nat) : bool :=
  match remaining with
  | O => true
  | S remaining' =>
      let n1 := Num.or_zero (nth_error v1 i) in
      let n2 := Num.or_zero (nth_error v2 i) in
      if Num.gt n1 n2 then true
      else if Num.lt n1 n2 then false
      else compare_from v1 v2 (S i) remaining'
  end.

Definition compareVersion (version target : text) : bool :=
  let v1 := map Num.Number (JS.split "." version) in
  let v2 := map Num.Number (JS.split "." target) in
  compare_from v1 v2 0 (Nat.max (length v1) (length v2)).

Definition FIXED_VERSION : text := "2.40.4".


(** ** Exceptions

    A call that can throw returns a [result]; [let* x := c in k] is the
    sequencing of statements, the first throw ending the computation. *)

Inductive result (A : Type) : Type :=
  | Ok (a : A)
  | Throw (message : string).

Arguments Ok {A} a.
Arguments Throw {A} message.

Definition bind {A B : Type} (c : result A) (k : A -> result B) : result B :=
  match c with
  | Ok a => k a
  | Throw m => Throw m
  end.

Notation "'let*' x ':=' c 'in' k" := (bind c (fun x => k))
  (at level 10, x name, c at level 100, k at level 200).

(** ** Regular expressions

    The regular expressions of the source are sequences of single-character
    items, each taken once, or greedily zero or more times ([*]), or one or
    more times ([+]).  [match_here] is the backtracking matcher at one
    position and gives the length of the match; [exec] tries the positions
    from the left, as [RegExp.prototype.exec] does for a pattern without
    flags, and gives the index and the length of [match[0]]. *)

Module Regex.

Inductive quantifier : Type := Once | Star | Plus.

Record item : Type := Item { accepts : ascii -> bool; quant : quantifier }.

Definition regex := list item.

Fixpoint greedy (p : ascii -> bool) (k : text -> option nat) (s : text) : option nat :=
  match s with
  | [] => k []
  | c :: s' =>
      if p c then
        match greedy p k s' with
        | Some n => Some (S n)
        | None => k s
        end
      else k s
  end.

Fixpoint match_here (re : regex) (s : text) : option nat :=
  match re with
  | [] => Some 0
  | it :: re' =>
      match quant it with
      | Once =>
          match s with
          | c :: s' => if accepts it c then option_map S (match_here re' s') else None
          | [] => None
          end
      | Star => greedy (accepts it) (match_here re') s
      | Plus =>
          match s with
          | c :: s' =>
              if accepts it c
              then option_map S (greedy (accepts it) (match_here re') s')
              else None
          | [] => None
          end
      end
  end.

Fixpoint exec (re : regex) (s : text) : option (nat * nat) :=
  match match_here re s with
  | Some n => Some (0, n)
  | None =>
      match s with
      | [] => None
      | _ :: s' => option_map (fun m => (S (fst m), snd m)) (exec re s')
      end
  end.

(** [re.test(s)] *)
Definition test (re : regex) (s : text) : bool :=
  match exec re s with Some _ => true | None => false end.

(** A run of literal characters, escaped or not. *)
Definition lit (s : text) : regex :=
  map (fun c => Item (Ascii.eqb c) Once) s.

(** [\s] on the code units below 256: tab, line feed, vertical tab, form
    feed, carriage return, space and no-break space. *)
Definition white_space (c : ascii) : bool :=
  let n := nat_of_ascii c in
  ((9 <=? n) && (n <=? 13)) || (n =? 32) || (n =? 160).

(** [[^,]] *)
Definition not_comma (c : ascii) : bool := negb (Ascii.eqb c ",").

(** [/function replaceable\s*\(([^,]+),\s*icon\)\s*\{/] *)
Definition replaceable_signature : regex :=
  lit "function replaceable" ++ [Item white_space Star] ++ lit "("
  ++ [Item not_comma Plus] ++ lit "," ++ [Item white_space Star]
  ++ lit "icon)" ++ [Item white_space Star] ++ lit "{".

(** [/setup\s*\(\)\s*\{/] *)
Definition setup_opener : regex :=
  lit "setup" ++ [Item white_space Star] ++ lit "()"
  ++ [Item white_space Star] ++ lit "{".

End Regex.

(** ** magic-string

    The operations of the [MagicString] class that the plugin calls, on the
    library's own representation: the original text cut into chunks, each
    with its current content and the texts attached before and after it. *)

Module MagicString.

Record Chunk : Type := mkChunk {
  c_start : nat;
  c_end : nat;
  c_original : text;
  c_intro : text;
  c_content : text;
  c_outro : text;
  c_edited : bool
}.

Record t : Type := mk {
  original : text;
  intro : text;
  outro : text;
  chunks : list Chunk
}.

(** [new MagicString(string)] *)
Definition create (s : text) : t :=
  mk s [] [] [mkChunk 0 (length s) s [] s [] false].

Definition byStart (m : t) (index : nat) : option Chunk :=
  find (fun c => c_start c =? index) (chunks m).

Definition byEnd (m : t) (index : nat) : option Chunk :=
  find (fun c => c_end c =? index) (chunks m).

(** [chunk.contains(index)] *)
Definition contains (c : Chunk) (index : nat) : bool :=
  (c_start c <? index) && (index <? c_end c).

(** [chunk.edit(content, storeName, contentOnly)] with [contentOnly] false. *)
Definition edit (content : text) (c : Chunk) : Chunk :=
  mkChunk (c_start c) (c_end c) (c_original c) [] content [] true.

(** [chunk.split(index)]: the two chunks that replace [c]. *)
Definition chunk_split (c : Chunk) (index : nat) : Chunk * Chunk :=
  let sliceIndex := index - c_start c in
  let originalBefore := JS.slice (c_original c) 0 sliceIndex in
  let originalAfter := skipn sliceIndex (c_original c) in
  let newChunk := mkChunk index (c_end c) originalAfter [] originalAfter (c_outro c) false in
  if c_edited c
  then (mkChunk (c_start c) index originalBefore (c_intro c) [] [] true,
        edit [] newChunk)
  else (mkChunk (c_start c) index originalBefore (c_intro c) originalBefore [] false,
        newChunk).

Fixpoint split_chunks (index : nat) (cs : list Chunk) : result (list Chunk) :=
  match cs with
  | [] => Ok []
  | c :: cs' =>
      if contains c index then
        if c_edited c && negb (length (c_content c) =? 0)
        then Throw "Cannot split a chunk that has already been edited"
        else let (a, b) := chunk_split c index in Ok (a :: b :: cs')
      else
        let* rest := split_chunks index cs' in Ok (c :: rest)
  end.

(** [this._split(index)] *)
Definition _split (index : nat) (m : t) : result t :=
  match byStart m index, byEnd m index with
  | None, None =>
      let* cs := split_chunks index (chunks m) in
      Ok (mk (original m) (intro m) (outro m) cs)
  | _, _ => Ok m
  end.

(** [this.overwrite(start, end, content)].  The plugin only overwrites a
    range found by [indexOf], so [start <= end_]; a range that ends before
    it starts is refused here. *)
Definition overwrite (start end_ : nat) (content : text) (m : t) : result t :=
  if length (original m) <? end_ then Throw "end is out of bounds"
  else if start =? end_ then Throw "Cannot overwrite a zero-length range"
  else if end_ <? start then Throw "Cannot overwrite across a split point"
  else
    let* m := _split start m in
    let* m := _split end_ m in
    Ok (mk (original m) (intro m) (outro m)
          (map (fun c =>
                  if c_start c =? start then edit content c
                  else if (start <? c_start c) && (c_end c <=? end_) then edit [] c
                  else c)
               (chunks m))).

(** [this.replace(searchValue, replacement)] with a string to search: the
    string is looked up literally with [indexOf] and its first occurrence in
    the original text is overwritten, unless the replacement is the same
    string. *)
Definition replace (searchValue replacement : text) (m : t) : result t :=
  match JS.indexOf searchValue (original m) with
  | Some index =>
      if JS.text_eqb searchValue replacement then Ok m
      else overwrite index (index + length searchValue) replacement m
  | None => Ok m
  end.

(** [this.appendLeft(index, content)] *)
Definition appendLeft (index : nat) (content : text) (m : t) : result t :=
  let* m := _split index m in
  match byEnd m index with
  | Some _ =>
      Ok (mk (original m) (intro m) (outro m)
            (map (fun c =>
                    if c_end c =? index
                    then mkChunk (c_start c) (c_end c) (c_original c) (c_intro c)
                           (c_content c) (c_outro c ++ content) (c_edited c)
                    else c)
                 (chunks m)))
  | None => Ok (mk (original m) (intro m ++ content) (outro m) (chunks m))
  end.

(** [this.prepend(content)] *)
Definition prepend (content : text) (m : t) : t :=
  mk (original m) (content ++ intro m) (outro m) (chunks m).

Definition chunk_toString (c : Chunk) : text :=
  c_intro c ++ c_content c ++ c_outro c.

(** [this.toString()] *)
Definition toString (m : t) : text :=
  intro m ++ concat (map chunk_toString (chunks m)) ++ outro m.

(** The value of [this.generateMap({ source, hires })]: the position map is
    a function of the edited text and of the options, and is kept as the
    call that makes it. *)
Record SourceMap : Type := mkMap {
  map_of : t;
  map_source : text;
  map_hires : bool
}.

Definition generateMap (source : text) (hires : bool) (m : t) : SourceMap :=
  mkMap m source hires.

End MagicString.

(** ** [createFilter] of Rollup's plugin utilities, as re-exported by Vite

    Only include patterns are given in this program, all of them regular
    expressions.  The filter refuses an identity with a NUL character (the
    mark of a virtual module), turns backslashes into slashes, and accepts
    when some pattern matches. *)

Module Filter.

Definition t := list Regex.regex.

Definition createFilter (include : list Regex.regex) : t := include.

Definition normalizePath (id : text) : text :=
  map (fun c => if Ascii.eqb c "\" then "/"%char else c) id.

Definition matches (filter : t) (id : text) : bool :=
  if JS.includes [Ascii.zero] id then false
  else
    let pathId := normalizePath id in
    if existsb (fun re => Regex.test re pathId) filter then true
    else length filter =? 0.

End Filter.

(** ** Values read from a manifest *)

#[local] Unset Elimination Schemes.

Inductive value : Type :=
  | VUndefined
  | VNull
  | VBool (b : bool)
  | VNumber (n : Z)
  | VString (s : text)
  | VArray (items : list value)
  | VObject (props : list (text * value)).

#[local] Set Elimination Schemes.

(** The truthiness that [&&] tests. *)
Definition truthy (v : value) : bool :=
  match v with
  | VUndefined | VNull => false
  | VBool b => b
  | VNumber n => negb (n =? 0)%Z
  | VString s => negb (length s =? 0)
  | VArray _ | VObject _ => true
  end.

(** [v[key]] for a key that no prototype defines: a property read on
    [null] or [undefined] throws, an object gives its own property, and
    every other value gives [undefined]. *)
Definition get (v : value) (key : text) : result value :=
  match v with
  | VUndefined | VNull => Throw "TypeError: Cannot read properties"
  | VObject props =>
      match find (fun kv => JS.text_eqb (fst kv) key) props with
      | Some kv => Ok (snd kv)
      | None => Ok VUndefined
      end
  | _ => Ok VUndefined
  end.

(** The part of Node.js that the plugin calls: module resolution from a
    base path ([createRequire(base).resolve(request)]), the file system and
    [JSON.parse]. *)
Record Node : Type := mkNode {
  require_resolve : text -> text -> result text;
  readFileSync : text -> result text;
  existsSync : text -> bool;
  JSON_parse : text -> result value
}.

(** The recipes of [./transformMap] ([transformDev] and the four entries
    of [transformMap]) are not among the sources at hand and are parameters
    of the plugins.  Each receives the [MagicString] of the file (and, for
    all but [result], the text and a flag), edits it, and may throw. *)
Record TransformMap : Type := mkTransformMap {
  transformDev : MagicString.t -> text -> result MagicString.t;
  checkbox : MagicString.t -> text -> bool -> result MagicString.t;
  backTop : MagicString.t -> text -> bool -> result MagicString.t;
  rate : MagicString.t -> text -> bool -> result MagicString.t;
  result_ : MagicString.t -> result MagicString.t
}.

(** [getVirtualPath()], given the directory of the module: the replacement
    of [/[/\\]dist$/] by ['/src/virtual']. *)
Definition getVirtualPath (dirname : text) : text :=
  if JS.endsWith "/dist" dirname || JS.endsWith "\dist" dirname
  then firstn (length dirname - 5) dirname ++ "/src/virtual"
  else dirname.

(** The body of the [try] in [getNaiveUIVersion(root)]. *)
Definition read_version (node : Node) (root : text) : result value :=
  let base := if JS.endsWith "/" root then root else root ++ "/" in
  let* pkgPath := require_resolve node base "naive-ui/package.json" in
  let* raw := readFileSync node pkgPath in
  let* pkg := JSON_parse node raw in
  get pkg "version".

(** [getNaiveUIVersion(root)]: the [catch] returns [null]. *)
Definition getNaiveUIVersion (node : Node) (root : text) : value :=
  match read_version node root with
  | Ok version => version
  | Throw _ => VNull
  end.

(** ** The plugins *)

(** The variables that the three plugins share. *)
Record State : Type := mkState {
  isBuild : bool;
  skipFix : bool;
  fixReplaceableFilter : option Filter.t;
  fixExportDefaultFilter : option Filter.t;
  logged : list text
}.

(** The state when [ViteFixNaiveuiIcon] returns: the filters are declared
    and not yet assigned. *)
Definition initial : State := mkState false false None None [].

(** What a [transform] hook returns when it does not decline. *)
Module Output.

Record t : Type := mk {
  code : text;
  map : MagicString.SourceMap
}.

End Output.

Definition newline : ascii := "010"%char.

Definition import_line : text :=
  "import fixNaiveuiIconCloneVnode from 'virtual:fixNaiveuiIcon-path:deepCloneVnode.js';"
  ++ [newline].

Definition binding : text :=
  newline :: "  const icon = fixNaiveuiIconCloneVnode(_icon_);".

Definition virtual_prefix : text := "virtual:fixNaiveuiIcon-path:".

(** The [while] loop of the replaceable plugin.  [rest] is the text from
    [funcEndIdx] on, so [funcEndIdx < code.length] is [rest] not being
    empty. *)
Fixpoint brace_loop (rest : text) (braceCount : Z) (funcEndIdx : nat) : Z * nat :=
  match rest with
  | [] => (braceCount, funcEndIdx)
  | char :: rest' =>
      if (0 <? braceCount)%Z then
        let braceCount := if Ascii.eqb char "{" then (braceCount + 1)%Z else braceCount in
        let braceCount := if Ascii.eqb char "}" then (braceCount - 1)%Z else braceCount in
        brace_loop rest' braceCount (S funcEndIdx)
      else (braceCount, funcEndIdx)
  end.

(** The loop from its initial state [braceCount = 1], [funcEndIdx = endIdx]:
    the final values of the two variables. *)
Definition brace_scan (code : text) (endIdx : nat) : Z * nat :=
  brace_loop (skipn endIdx code) 1%Z endIdx.

(** A call of a filter variable; calling it before [config] assigned it
    throws. *)
Definition call_filter (filter : option Filter.t) (id : text) : result bool :=
  match filter with
  | Some f => Ok (Filter.matches f id)
  | None => Throw "TypeError: filter is not a function"
  end.

Definition output_of (id : text) (magicString : MagicString.t) : Output.t :=
  Output.mk (MagicString.toString magicString)
            (MagicString.generateMap id true magicString).

(** The [switch (true)] of the export-default plugin: the component whose
    case is taken. *)
Inductive Component : Type := Checkbox | BackTop | Rate | Result.

Definition dispatch (id : text) : option Component :=
  if JS.includes "checkbox" id then Some Checkbox
  else if JS.includes "back-top" id then Some BackTop
  else if JS.includes "rate" id then Some Rate
  else if JS.includes "result" id then Some Result
  else None.

Section Plugins.

Variable VirtualPath : text.
Variable node : Node.
Variable transformMap : TransformMap.

(** [configResolved(config)], with [config.root]: how the hook ends, and
    the shared variables when it does.  The call [version.split] throws for
    a truthy version that is not a string, before anything is assigned. *)
Definition configResolved (root : text) (st : State) : result unit * State :=
  let version := getNaiveUIVersion node root in
  if truthy version then
    match version with
    | VString v =>
        if compareVersion v FIXED_VERSION then
          (Ok tt,
           mkState (isBuild st) true (fixReplaceableFilter st)
             (fixExportDefaultFilter st)
             (logged st ++
              [("[vite-fix-naiveui-icon] naive-ui@" : text) ++ v ++ " >= "
               ++ FIXED_VERSION ++ ", skip fix"]))
        else (Ok tt, st)
    | _ => (Throw "TypeError: version.split is not a function", st)
    end
  else (Ok tt, st).

(** [config(_, { command })] *)
Definition config (command : text) (st : State) : State :=
  if JS.text_eqb command "build" then
    mkState true (skipFix st)
      (Some (Filter.createFilter
               [Regex.lit "/naive-ui/es/_internal/icons/replaceable"]))
      (Some (Filter.createFilter
               [Regex.lit "/naive-ui/es/checkbox/src/Checkbox.mjs";
                Regex.lit "/naive-ui/es/back-top/src/BackTop.mjs";
                Regex.lit "/naive-ui/es/rate/src/Rate.mjs";
                Regex.lit "/naive-ui/es/result/src/Result.mjs"]))
      (logged st)
  else
    mkState false (skipFix st)
      (Some (Filter.createFilter [Regex.lit "/.vite/deps/naive-ui.js"]))
      (Some (Filter.createFilter [Regex.lit "/.vite/deps/naive-ui.js"]))
      (logged st).

(** [resolveId(id)]; [None] is the [null] that declines. *)
Definition resolveId (id : text) : option text :=
  if JS.startsWith virtual_prefix id
  then Some (JS.replace virtual_prefix (VirtualPath ++ "/") id)
  else None.

(** [load(id)]; [None] is the [undefined] that declines. *)
Definition load (id : text) : result (option text) :=
  if JS.startsWith VirtualPath id then
    if existsSync node id then
      let* content := readFileSync node id in Ok (Some content)
    else Ok None
  else Ok None.

(** [transform(code, id)] of [vite-fix-naiveui-icon:pre]. *)
Definition pre_transform (st : State) (code : text) (id : text) : result (option Output.t) :=
  if skipFix st then Ok None
  else
    let* replaceable := call_filter (fixReplaceableFilter st) id in
    let* wanted :=
      if replaceable then Ok true
      else call_filter (fixExportDefaultFilter st) id in
    if negb wanted then Ok None
    else
      let magicString := MagicString.create code in
      let magicString := MagicString.prepend import_line magicString in
      Ok (Some (output_of id magicString)).

(** [transform(code, id)] of [vite-fix-naiveui-icon-replaceable]. *)
Definition replaceable_transform (st : State) (code : text) (id : text) : result (option Output.t) :=
  if skipFix st then Ok None
  else
    let* wanted := call_filter (fixReplaceableFilter st) id in
    if negb wanted then Ok None
    else
      let magicString := MagicString.create code in
      let* magicString :=
        MagicString.replace "function replaceable(name, icon)"
          "function replaceable(name, _icon_)" magicString in
      let* magicString :=
        match Regex.exec Regex.replaceable_signature code with
        | Some (startIdx, fullMatch_length) =>
            let endIdx := startIdx + fullMatch_length in
            let funcEndIdx := snd (brace_scan code endIdx) in
            let replaceableCode := JS.slice code endIdx funcEndIdx in
            match Regex.exec Regex.setup_opener replaceableCode with
            | Some (index, setup_length) =>
                let setupStartIdx := endIdx + index + setup_length in
                MagicString.appendLeft setupStartIdx binding magicString
            | None => Ok magicString
            end
        | None => Ok magicString
        end in
      Ok (Some (output_of id magicString)).

(** [transform(code, id)] of [vite-fix-naiveui-icon-export-default]. *)
Definition export_default_transform (st : State) (code : text) (id : text) : result (option Output.t) :=
  if skipFix st then Ok None
  else
    let* wanted := call_filter (fixExportDefaultFilter st) id in
    if negb wanted then Ok None
    else
      let magicString := MagicString.create code in
      let* magicString :=
        if negb (isBuild st) then transformDev transformMap magicString code
        else
          match dispatch id with
          | Some Checkbox => checkbox transformMap magicString code true
          | Some BackTop => backTop transformMap magicString code true
          | Some Rate => rate transformMap magicString code true
          | Some Result => result_ transformMap magicString
          | None => Ok magicString
          end in
      Ok (Some (output_of id magicString)).

(** The text after a stage: a stage that declines leaves it as it was. *)
Definition after_stage (input : text) (r : option Output.t) : text :=
  match r with
  | Some o => Output.code o
  | None => input
  end.

(** The three [transform] hooks on one file, in the order in which Vite
    runs them: the [pre] plugin, then the two [post] plugins in the order
    of the array. *)
Definition pipeline (st : State) (input : text) (id : text) : result text :=
  let* r := pre_transform st input id in
  let input := after_stage input r in
  let* r := replaceable_transform st input id in
  let input := after_stage input r in
  let* r := export_default_transform st input id in
  Ok (after_stage input r).

End Plugins.

(** * Vocabulary of the statements *)

(** The components of a version string as exact integers, an absent
    component counting as zero. *)
Definition components (s : text) : list Z :=
  map Num.decimal (JS.split "." s).

Definition component (s : text) (i : nat) : Z := nth i (components s) 0%Z.

(** A dotted numeric string: every piece between dots is a non-empty run of
    decimal digits. *)
Definition numeric (c : text) : bool :=
  negb (length c =? 0) && forallb Num.is_digit c.

Definition dotted_numeric (s : text) : bool := forallb numeric (JS.split "." s).

(** The components that a double holds exactly. *)
Definition exact (s : text) : bool :=
  forallb (fun c => (Num.decimal c <=? 2 ^ 53)%Z) (JS.split "." s).

(** [v] is below [t] at the first component in which they differ. *)
Definition lower_at_first_difference (v t : text) : Prop :=
  exists i, (forall j, j < i -> component v j = component t j) /\
            (component v i < component t i)%Z.

(** The components of a version string as the numbers that [Number] reads,
    an absent component counting as zero. *)
Definition number_component (s : text) (i : nat) : Num.number :=
  nth i (map Num.Number (JS.split "." s)) (Num.Finite 0).

(** [v] is below [t] at the first component in which they differ, the
    components compared as numbers. *)
Definition below_at_first_difference (v t : text) : Prop :=
  exists i,
    (forall j, j < i ->
       Num.eqb (number_component v j) (number_component t j) = true) /\
    Num.lt (number_component v i) (number_component t i) = true.

(** What one character adds to the depth. *)
Definition brace_delta (c : ascii) : Z :=
  if Ascii.eqb c "{" then 1%Z else if Ascii.eqb c "}" then (-1)%Z else 0%Z.

(** The depth after the characters [seen], starting from the one opening
    brace already counted. *)
Definition depth_after (seen : text) : Z :=
  fold_right (fun c d => (brace_delta c + d)%Z) 1%Z seen.

(** The scanner in the words of the specification: from depth one, each
    opening brace adds one and each closing brace takes one away; the answer
    is the index just after the brace that brings the depth to zero, and
    [None], "not found", when the text ends first. *)
Fixpoint findMatchingClose_from (rest : text) (depth : Z) (index : nat) : option nat :=
  match rest with
  | [] => None
  | c :: rest' =>
      let depth := (depth + brace_delta c)%Z in
      if (depth =? 0)%Z then Some (S index)
      else findMatchingClose_from rest' depth (S index)
  end.

Definition findMatchingClose (code : text) (startIndex : nat) : option nat :=
  findMatchingClose_from (skipn startIndex code) 1%Z startIndex.

(** The scan signals an exhausted input through the index it yields: some
    test on [funcEndIdx], the one variable read after the loop, tells the
    texts whose brace is never closed from the others. *)
Definition scan_signals_not_found : Prop :=
  exists signal : nat -> bool,
  forall (code : text) (start : nat), start <= length code ->
    match findMatchingClose code start with
    | Some e => snd (brace_scan code start) = e /\ signal e = false
    | None => signal (snd (brace_scan code start)) = true
    end.

(** Decide the index tests that arithmetic settles. *)
Ltac index_tests :=
  repeat match goal with
  | |- context [?x =? ?y] =>
      first [ replace (x =? y) with true by (symmetry; apply Nat.eqb_eq; lia)
            | replace (x =? y) with false by (symmetry; apply Nat.eqb_neq; lia) ]
  | |- context [?x <? ?y] =>
      first [ replace (x <? y) with true by (symmetry; apply Nat.ltb_lt; lia)
            | replace (x <? y) with false by (symmetry; apply Nat.ltb_ge; lia) ]
  | |- context [?x <=? ?y] =>
      first [ replace (x <=? y) with true by (symmetry; apply Nat.leb_le; lia)
            | replace (x <=? y) with false by (symmetry; apply Nat.leb_gt; lia) ]
  end.

Definition plain (a b : nat) (o : text) : MagicString.Chunk :=
  MagicString.mkChunk a b o [] o [] false.

(** The chunks of a fresh [MagicString] after one [overwrite] of [a, b). *)
Definition overwritten (s : text) (a b : nat) (content : text) : list MagicString.Chunk :=
  (if a =? 0 then [] else [plain 0 a (firstn a s)])
  ++ [MagicString.mkChunk a b (firstn (b - a) (skipn a s)) [] content [] true]
  ++ (if b =? length s then [] else [plain b (length s) (skipn b s)]).

Ltac ms_compute :=
  repeat (progress (unfold MagicString.contains, MagicString.chunk_split,
                      MagicString.edit, JS.slice;
                    index_tests;
                    cbn -[Nat.ltb Nat.eqb Nat.leb skipn firstn Nat.sub Nat.add])).

Ltac ms_texts :=
  rewrite ?Nat.sub_0_r, ?skipn_skipn, ?skipn_O, ?firstn_all; cbn [skipn];
  repeat match goal with
  | |- context [skipn (?x + (?y - ?x))] => replace (x + (y - x)) with y by lia
  | |- context [skipn (?y - ?x + ?x)] => replace (y - x + x) with y by lia
  end.

Definition replaceable_literal : text := "function replaceable(name, icon)".
Definition replaceable_renamed : text := "function replaceable(name, _icon_)".

(** The offset at which the plugin inserts the binding, when both anchors
    are found. *)
Definition insertion_offset (code : text) : option nat :=
  match Regex.exec Regex.replaceable_signature code with
  | Some (startIdx, fullMatch_length) =>
      let endIdx := startIdx + fullMatch_length in
      let funcEndIdx := snd (brace_scan code endIdx) in
      match Regex.exec Regex.setup_opener (JS.slice code endIdx funcEndIdx) with
      | Some (index, setup_length) => Some (endIdx + index + setup_length)
      | None => None
      end
  | None => None
  end.

(** The text that the literal replacement alone produces. *)
Definition renamed (code : text) : text :=
  JS.replace replaceable_literal replaceable_renamed code.

Definition exact_signature : text := "function replaceable(name, icon) {".
Definition setup_text : text := "setup() {".

(** A project without the dependency: module resolution throws. *)
Definition node_without_naive_ui : Node :=
  mkNode (fun _ _ => Throw "Cannot find module 'naive-ui/package.json'")
         (fun _ => Throw "ENOENT") (fun _ => false)
         (fun _ => Throw "SyntaxError").

(** A project with naive-ui at the given version. *)
Definition node_with_naive_ui (version : text) : Node :=
  mkNode (fun base _ => Ok (base ++ "node_modules/naive-ui/package.json"))
         (fun _ => Ok ("{}" : text))
         (fun _ => true)
         (fun _ => Ok (VObject [("name" : text, VString "naive-ui");
                                ("version" : text, VString version)])).

Definition no_recipes : TransformMap :=
  mkTransformMap (fun m _ => Ok m) (fun m _ _ => Ok m) (fun m _ _ => Ok m)
                 (fun m _ _ => Ok m) (fun m => Ok m).

(** A text without a dollar sign. *)
Definition dollar_free (s : text) : bool :=
  forallb (fun c => negb (Ascii.eqb c "$")) s.

(** Whether a filter variable accepts an identity (false while it is not
    assigned). *)
Definition accepts (filter : option Filter.t) (id : text) : bool :=
  match call_filter filter id with
  | Ok b => b
  | Throw _ => false
  end.

(** The paths that the two filters of a build look for. *)
Definition replaceable_path : text := "/naive-ui/es/_internal/icons/replaceable".

Definition export_default_paths : list text :=
  ["/naive-ui/es/checkbox/src/Checkbox.mjs" : text;
   "/naive-ui/es/back-top/src/BackTop.mjs" : text;
   "/naive-ui/es/rate/src/Rate.mjs" : text;
   "/naive-ui/es/result/src/Result.mjs" : text].

(** The pattern of the aggregate cache path, as a text to be found. *)
Definition aggregate_cache_path : text := "/.vite/deps/naive-ui.js".

(** A text without a slash. *)
Definition slash_free (q : text) : bool :=
  forallb (fun c => negb (Ascii.eqb c "/")) q.

(** A project in which the helper module is on disk. *)
Definition node_with_helper : Node :=
  mkNode (fun _ _ => Throw "Cannot find module")
         (fun path => if JS.text_eqb path "/pkg/src/virtual/deepCloneVnode.js"
                      then Ok ("export default function deepCloneVnode() {}" : text)
                      else Throw "ENOENT")
         (fun path => JS.text_eqb path "/pkg/src/virtual/deepCloneVnode.js")
         (fun _ => Throw "SyntaxError").

(** The text that the replaceable plugin returns, by cutting and joining
    the input: the literal renamed at its first occurrence, the binding put
    at the insertion offset. *)
Definition patched (code : text) : text :=
  match JS.indexOf replaceable_literal code, insertion_offset code with
  | None, None => code
  | Some n, None => firstn n code ++ replaceable_renamed ++ skipn (n + 32) code
  | None, Some p => firstn p code ++ binding ++ skipn p code
  | Some n, Some p =>
      if p <=? n
      then firstn p code ++ binding ++ JS.slice code p n
           ++ replaceable_renamed ++ skipn (n + 32) code
      else firstn n code ++ replaceable_renamed ++ JS.slice code (n + 32) p
           ++ binding ++ skipn p code
  end.

(** The output of the plugin on a small file with the signature and a
    [setup] block. *)
Definition sample_output : Output.t :=
  Eval vm_compute in
    match replaceable_transform (config "serve" initial)
            "function replaceable(name, icon) { return { setup() { return icon } } }"
            "/app/node_modules/.vite/deps/naive-ui.js" with
    | Ok (Some o) => o
    | _ => output_of [] (MagicString.create [])
    end.

(** One of two texts begins with the other. *)
Definition compatible (p t : text) : bool :=
  JS.startsWith p t || JS.startsWith t p.

(** No occurrence of [p] can begin inside [before], whatever follows:
    no non-empty end of [before] begins with [p] or begins [p]. *)
Fixpoint clear_of (p before : text) : bool :=
  match before with
  | [] => true
  | _ :: rest => negb (compatible p before) && clear_of p rest
  end.

(** * Properties *)

(** ** Strings *)

Lemma startsWith_app (p s : text) : JS.startsWith p (p ++ s) = true.
Proof.
  induction p as [|a p IH]; simpl; [reflexivity|].
  now rewrite Ascii.eqb_refl.
Qed.

Lemma startsWith_inv (p s : text) :
  JS.startsWith p s = true -> s = p ++ skipn (length p) s.
Proof.
  revert s; induction p as [|a p IH]; intros [|b s] H; simpl in *;
    try reflexivity; try discriminate.
  apply andb_prop in H as [Hab Hp].
  apply Ascii.eqb_eq in Hab; subst b.
  f_equal; now apply IH.
Qed.

Lemma startsWith_app_l (p q s : text) :
  JS.startsWith (p ++ q) s = true -> JS.startsWith p s = true.
Proof.
  revert s; induction p as [|a p IH]; intros [|b s] H; simpl in *;
    try reflexivity; try discriminate.
  apply andb_prop in H as [Hab Hp].
  rewrite Hab; simpl; now apply IH.
Qed.

(** [indexOf] finds the first position at which the pattern starts. *)
Lemma indexOf_Some (p s : text) (n : nat) :
  JS.indexOf p s = Some n ->
  n <= length s /\ JS.startsWith p (skipn n s) = true /\
  forall m, m < n -> JS.startsWith p (skipn m s) = false.
Proof.
  revert n; induction s as [|c s IH]; intros n; simpl.
  - destruct (JS.startsWith p []) eqn:E; [|discriminate].
    intros [= <-]; repeat split; [lia | exact E | intros m Hm; lia].
  - destruct (JS.startsWith p (c :: s)) eqn:E.
    + intros [= <-]; repeat split; [lia | exact E | intros m Hm; lia].
    + destruct (JS.indexOf p s) as [k|] eqn:Ek; simpl; [|discriminate].
      intros [= <-].
      destruct (IH k eq_refl) as (Hk & Hat & Hbefore).
      repeat split; [lia | exact Hat |].
      intros [|m] Hm; [exact E | apply Hbefore; lia].
Qed.

Lemma indexOf_None (p s : text) (m : nat) :
  JS.indexOf p s = None -> m <= length s -> JS.startsWith p (skipn m s) = false.
Proof.
  revert m; induction s as [|c s IH]; intros m; simpl.
  - destruct (JS.startsWith p []) eqn:E; [discriminate|].
    intros _ Hm; destruct m; [exact E | lia].
  - destruct (JS.startsWith p (c :: s)) eqn:E; [discriminate|].
    destruct (JS.indexOf p s) eqn:Ek; simpl; [discriminate|].
    intros _ Hm; destruct m as [|m]; [exact E | apply IH; [reflexivity | lia]].
Qed.

Lemma indexOf_first (p s : text) (n : nat) :
  n <= length s -> JS.startsWith p (skipn n s) = true ->
  (forall m, m < n -> JS.startsWith p (skipn m s) = false) ->
  JS.indexOf p s = Some n.
Proof.
  intros Hn Hat Hbefore.
  destruct (JS.indexOf p s) as [k|] eqn:E.
  - destruct (indexOf_Some _ _ _ E) as (_ & Hk & Hkb).
    destruct (Nat.lt_trichotomy k n) as [Hlt | [-> | Hgt]]; [| reflexivity |].
    + rewrite (Hbefore k Hlt) in Hk; discriminate.
    + rewrite (Hkb n Hgt) in Hat; discriminate.
  - rewrite (indexOf_None _ _ _ E Hn) in Hat; discriminate.
Qed.

Lemma includes_prefix (p q s : text) :
  JS.includes (p ++ q) s = true -> JS.includes p s = true.
Proof.
  unfold JS.includes.
  destruct (JS.indexOf (p ++ q) s) as [n|] eqn:E; [|discriminate].
  intros _.
  destruct (indexOf_Some _ _ _ E) as (Hn & Hat & _).
  apply startsWith_app_l in Hat.
  destruct (JS.indexOf p s) eqn:E'; [reflexivity|].
  rewrite (indexOf_None _ _ _ E' Hn) in Hat; discriminate.
Qed.

(** ** Version comparison *)

Lemma digit_not (c d : ascii) :
  Num.is_digit c = true -> Num.is_digit d = false -> Ascii.eqb c d = false.
Proof.
  intros Hc Hd. destruct (Ascii.eqb_spec c d) as [-> | _]; [congruence | reflexivity].
Qed.

Lemma trim_start_digits (s : text) :
  forallb Num.is_digit s = true -> Num.trim_start s = s.
Proof.
  destruct s as [|c s]; [reflexivity|].
  simpl. intros H. apply andb_prop in H as [Hc _].
  unfold Num.white_space, Num.is_digit in *.
  apply andb_prop in Hc as [H1 H2].
  apply Nat.leb_le in H1, H2.
  replace (nat_of_ascii c <=? 13) with false by (symmetry; apply Nat.leb_gt; lia).
  replace (nat_of_ascii c =? 32) with false by (symmetry; apply Nat.eqb_neq; lia).
  replace (nat_of_ascii c =? 160) with false by (symmetry; apply Nat.eqb_neq; lia).
  now rewrite andb_false_r.
Qed.

Lemma forallb_rev_digits (s : text) :
  forallb Num.is_digit s = true -> forallb Num.is_digit (rev s) = true.
Proof.
  rewrite !forallb_forall. intros H c Hc. apply H. now apply in_rev.
Qed.

Lemma trim_digits (s : text) :
  forallb Num.is_digit s = true -> Num.trim s = s.
Proof.
  intros H. unfold Num.trim.
  rewrite (trim_start_digits s H).
  rewrite (trim_start_digits (rev s) (forallb_rev_digits s H)).
  apply rev_involutive.
Qed.

Lemma digits_then_digits (s : text) :
  forallb Num.is_digit s = true -> Num.digits_then s = (s, []).
Proof.
  induction s as [|c s IH]; [reflexivity|].
  simpl. intros H. apply andb_prop in H as [Hc Hs].
  now rewrite Hc, (IH Hs).
Qed.

(** On a run of decimal digits, [Number] is the value in base ten, rounded. *)
Lemma Number_digits (s : text) :
  forallb Num.is_digit s = true -> Num.Number s = Num.to_double (Num.decimal s).
Proof.
  intros H. unfold Num.Number. rewrite (trim_digits s H).
  destruct s as [|c s]; [reflexivity|].
  pose proof H as Hall. simpl in H. apply andb_prop in H as [Hc Hs].
  assert (Hnd : Num.non_decimal (c :: s) = None).
  { unfold Num.non_decimal. destruct s as [|d [|e s]]; try reflexivity.
    destruct (Ascii.eqb c "0"); [|reflexivity].
    simpl in Hs. apply andb_prop in Hs as [Hd _].
    rewrite !(digit_not d _ Hd) by reflexivity. reflexivity. }
  rewrite Hnd.
  rewrite !(digit_not c _ Hc) by reflexivity. cbn [orb].
  assert (Hinf : JS.text_eqb (c :: s) "Infinity" = false).
  { unfold JS.text_eqb. destruct (list_eq_dec ascii_dec (c :: s) "Infinity") as [E | _];
      [|reflexivity].
    injection E as -> _. discriminate. }
  rewrite Hinf. unfold Num.unsigned_decimal.
  rewrite (digits_then_digits (c :: s) Hall).
  cbn [Num.nonempty orb]. rewrite app_nil_r.
  cbn [length Z.of_nat Z.opp Z.leb Z.compare]. rewrite Z.pow_0_r, Z.mul_1_r.
  reflexivity.
Qed.

Lemma to_double_exact (n : Z) :
  (n <= 2 ^ 53)%Z -> Num.to_double n = Num.Finite (inject_Z n).
Proof.
  intros H. unfold Num.to_double.
  destruct (n <? 2 ^ 53)%Z eqn:E; [reflexivity|].
  apply Z.ltb_ge in E.
  assert (n = 2 ^ 53)%Z as -> by lia.
  vm_compute. reflexivity.
Qed.

Lemma Number_exact (c : text) :
  numeric c = true -> (Num.decimal c <= 2 ^ 53)%Z ->
  Num.Number c = Num.Finite (inject_Z (Num.decimal c)).
Proof.
  intros Hc Hb. unfold numeric in Hc. apply andb_prop in Hc as [_ Hd].
  rewrite (Number_digits c Hd). now apply to_double_exact.
Qed.

Lemma or_zero_components (s : text) (i : nat) :
  dotted_numeric s = true -> exact s = true ->
  Num.or_zero (nth_error (map Num.Number (JS.split "." s)) i)
  = Num.Finite (inject_Z (component s i)).
Proof.
  unfold dotted_numeric, exact, component, components.
  generalize (JS.split "." s) as cs. intros cs; revert i.
  induction cs as [|c cs IH]; intros i Hn He.
  - destruct i; reflexivity.
  - simpl in Hn, He.
    apply andb_prop in Hn as [Hc Hn]. apply andb_prop in He as [Hb He].
    destruct i as [|i]; simpl.
    + rewrite Number_exact; [reflexivity | assumption | now apply Z.leb_le].
    + now apply IH.
Qed.

Lemma gt_integers (x y : Z) :
  Num.gt (Num.Finite (inject_Z x)) (Num.Finite (inject_Z y)) = (y <? x)%Z.
Proof.
  unfold Num.gt, Qle_bool. cbn [Qnum Qden inject_Z].
  rewrite !Z.mul_1_r. symmetry. apply Z.ltb_antisym.
Qed.

(** The loop returns false exactly when, among the indices it visits, the
    first at which the two sides differ has the smaller number on the
    left. *)
Lemma compare_from_spec (f g : nat -> Z) (v1 v2 : list Num.number) :
  (forall i, Num.or_zero (nth_error v1 i) = Num.Finite (inject_Z (f i))) ->
  (forall i, Num.or_zero (nth_error v2 i) = Num.Finite (inject_Z (g i))) ->
  forall remaining i,
    compare_from v1 v2 i remaining = true <->
    ~ exists k, i <= k < i + remaining /\
                (forall j, i <= j < k -> f j = g j) /\ (f k < g k)%Z.
Proof.
  intros Hf Hg. induction remaining as [|r IH]; intros i; simpl.
  - split; [|reflexivity]. intros _ (k & Hk & _). lia.
  - rewrite Hf, Hg. unfold Num.lt. rewrite !gt_integers.
    destruct (g i <? f i)%Z eqn:Egt.
    + apply Z.ltb_lt in Egt. split; [|reflexivity].
      intros _ (k & Hk & Heq & Hlt).
      destruct (Nat.eq_dec k i) as [-> | Hne]; [lia|].
      specialize (Heq i). lia.
    + apply Z.ltb_ge in Egt.
      destruct (f i <? g i)%Z eqn:Elt.
      * apply Z.ltb_lt in Elt. split; [discriminate|].
        intros Hno. exfalso. apply Hno. exists i.
        repeat split; [lia | lia | intros j Hj; lia | exact Elt].
      * apply Z.ltb_ge in Elt. rewrite IH. split.
        -- intros Hno (k & Hk & Heq & Hlt).
           destruct (Nat.eq_dec k i) as [-> | Hne]; [lia|].
           apply Hno. exists k. repeat split; [lia | lia | | exact Hlt].
           intros j Hj. apply Heq. lia.
        -- intros Hno (k & Hk & Heq & Hlt). apply Hno. exists k.
           repeat split; [lia | lia | | exact Hlt].
           intros j Hj. destruct (Nat.eq_dec j i) as [-> | Hne]; [lia|].
           apply Heq. lia.
Qed.

Lemma component_beyond (s : text) (i : nat) :
  length (JS.split "." s) <= i -> component s i = 0%Z.
Proof.
  intros H. unfold component, components.
  apply nth_overflow. now rewrite length_map.
Qed.

Lemma compareVersion_exact (v t : text) :
  dotted_numeric v = true -> dotted_numeric t = true ->
  exact v = true -> exact t = true ->
  (compareVersion v t = true <-> ~ lower_at_first_difference v t).
Proof.
  intros Hv Ht Ev Et. unfold compareVersion.
  rewrite (compare_from_spec (component v) (component t));
    [| intros i; now apply or_zero_components
     | intros i; now apply or_zero_components].
  rewrite !length_map.
  set (n := Nat.max _ _).
  split; intros Hno.
  - intros (k & Heq & Hlt). apply Hno. exists k.
    repeat split; [lia | | intros j Hj; apply Heq; lia | exact Hlt].
    destruct (Nat.lt_ge_cases k n) as [Hk | Hk]; [lia|].
    rewrite (component_beyond v), (component_beyond t) in Hlt; lia.
  - intros (k & Hk & Heq & Hlt). apply Hno. exists k.
    split; [intros j Hj; apply Heq; lia | exact Hlt].
Qed.

(** Two numbers other than [NaN] compare in exactly one of three ways. *)
Lemma number_trichotomy (a b : Num.number) :
  a <> Num.NaN -> b <> Num.NaN ->
  (Num.gt a b = true /\ Num.lt a b = false /\ Num.eqb a b = false) \/
  (Num.gt a b = false /\ Num.lt a b = true /\ Num.eqb a b = false) \/
  (Num.gt a b = false /\ Num.lt a b = false /\ Num.eqb a b = true).
Proof.
  intros Ha Hb. unfold Num.lt.
  destruct a as [|x| |], b as [|y| |]; try contradiction; cbn [Num.gt Num.eqb];
    try (now left); try (now right; left); try (now right; right).
  destruct (Q_dec x y) as [[Hlt | Hgt] | Heq].
  - right; left. repeat split.
    + apply negb_false_iff, Qle_bool_iff. now apply Qlt_le_weak.
    + apply negb_true_iff. destruct (Qle_bool y x) eqn:E; [|reflexivity].
      apply Qle_bool_iff in E. exfalso. exact (Qlt_not_le _ _ Hlt E).
    + destruct (Qeq_bool x y) eqn:E; [|reflexivity].
      apply Qeq_bool_iff in E. rewrite E in Hlt. exfalso. exact (Qlt_irrefl _ Hlt).
  - left. repeat split.
    + apply negb_true_iff. destruct (Qle_bool x y) eqn:E; [|reflexivity].
      apply Qle_bool_iff in E. exfalso. exact (Qlt_not_le _ _ Hgt E).
    + apply negb_false_iff, Qle_bool_iff. now apply Qlt_le_weak.
    + destruct (Qeq_bool x y) eqn:E; [|reflexivity].
      apply Qeq_bool_iff in E. rewrite E in Hgt. exfalso. exact (Qlt_irrefl _ Hgt).
  - right; right. repeat split.
    + apply negb_false_iff, Qle_bool_iff. rewrite Heq. apply Qle_refl.
    + apply negb_false_iff, Qle_bool_iff. rewrite Heq. apply Qle_refl.
    + now apply Qeq_bool_iff.
Qed.

Lemma or_zero_number (x : option Num.number) : Num.or_zero x <> Num.NaN.
Proof. destruct x as [[|q| |]|]; discriminate. Qed.

(** The loop over any two lists: it returns false exactly when, among the
    indices it visits, the first at which the two numbers differ has the
    smaller one on the left. *)
Lemma compare_from_numbers (v1 v2 : list Num.number) :
  forall remaining i,
    compare_from v1 v2 i remaining = true <->
    ~ exists k, i <= k < i + remaining /\
                (forall j, i <= j < k ->
                   Num.eqb (Num.or_zero (nth_error v1 j))
                           (Num.or_zero (nth_error v2 j)) = true) /\
                Num.lt (Num.or_zero (nth_error v1 k))
                       (Num.or_zero (nth_error v2 k)) = true.
Proof.
  induction remaining as [|r IH]; intros i; simpl.
  - split; [|reflexivity]. intros _ (k & Hk & _). lia.
  - destruct (number_trichotomy _ _ (or_zero_number (nth_error v1 i))
                (or_zero_number (nth_error v2 i)))
      as [(Hgt & Hlt & Heq) | [(Hgt & Hlt & Heq) | (Hgt & Hlt & Heq)]];
      rewrite Hgt; try rewrite Hlt.
    + split; [|reflexivity]. intros _ (k & Hk & Hbefore & Hlow).
      destruct (Nat.eq_dec k i) as [-> | Hne]; [congruence|].
      specialize (Hbefore i ltac:(lia)). congruence.
    + split; [discriminate|]. intros Hno. exfalso. apply Hno. exists i.
      repeat split; [lia | lia | intros j Hj; lia | exact Hlt].
    + rewrite IH. split.
      * intros Hno (k & Hk & Hbefore & Hlow).
        destruct (Nat.eq_dec k i) as [-> | Hne]; [congruence|].
        apply Hno. exists k. repeat split; [lia | lia | | exact Hlow].
        intros j Hj. apply Hbefore. lia.
      * intros Hno (k & Hk & Hbefore & Hlow). apply Hno. exists k.
        repeat split; [lia | lia | | exact Hlow].
        intros j Hj. destruct (Nat.eq_dec j i) as [-> | Hne]; [exact Heq|].
        apply Hbefore. lia.
Qed.

Lemma to_double_number (n : Z) : Num.to_double n <> Num.NaN.
Proof.
  unfold Num.to_double. destruct (n <? 2 ^ 53)%Z; [discriminate|].
  cbv zeta. destruct (_ <? 2 ^ 1024)%Z; discriminate.
Qed.

(** On a dotted numeric string, what the loop reads at an index is the
    number of that component. *)
Lemma or_zero_number_component (s : text) (i : nat) :
  dotted_numeric s = true ->
  Num.or_zero (nth_error (map Num.Number (JS.split "." s)) i)
  = number_component s i.
Proof.
  unfold dotted_numeric, number_component.
  generalize (JS.split "." s) as cs. intros cs; revert i.
  induction cs as [|c cs IH]; intros i Hn.
  - destruct i; reflexivity.
  - simpl in Hn. apply andb_prop in Hn as [Hc Hn].
    destruct i as [|i]; simpl; [|now apply IH].
    unfold numeric in Hc. apply andb_prop in Hc as [_ Hd].
    rewrite (Number_digits c Hd).
    pose proof (to_double_number (Num.decimal c)) as Hnan.
    destruct (Num.to_double (Num.decimal c)); [contradiction | | |]; reflexivity.
Qed.

Lemma number_component_beyond (s : text) (i : nat) :
  length (JS.split "." s) <= i -> number_component s i = Num.Finite 0.
Proof.
  intros H. unfold number_component. apply nth_overflow. now rewrite length_map.
Qed.

(** C3: for all dotted numeric strings [v] and [t], [compareVersion v t]
    compares the components as numbers from the most significant, an absent
    trailing component counting as zero, and is true exactly when [v] is
    not below [t] at the first component in which they differ (so also
    when all are equal); and [compareVersion] is true on
    ("2.40.4","2.40.4"), ("2.41.0","2.40.4") and ("2.40","2.40.0") and
    false on ("2.40.3","2.40.4"). *)
Theorem compareVersion_spec :
  (forall v t : text,
      dotted_numeric v = true -> dotted_numeric t = true ->
      (compareVersion v t = true <-> ~ below_at_first_difference v t)) /\
  compareVersion "2.40.4" "2.40.4" = true /\
  compareVersion "2.41.0" "2.40.4" = true /\
  compareVersion "2.40.3" "2.40.4" = false /\
  compareVersion "2.40" "2.40.0" = true.
Proof.
  split; [| repeat split; vm_compute; reflexivity].
  intros v t Hv Ht. unfold compareVersion.
  rewrite compare_from_numbers, !length_map.
  set (n := Nat.max _ _).
  assert (Hzero : Num.lt (Num.Finite 0) (Num.Finite 0) = false) by reflexivity.
  split; intros Hno.
  - intros (k & Hbefore & Hlow). apply Hno. exists k.
    rewrite !or_zero_number_component by assumption.
    repeat split; [lia | | | exact Hlow].
    + destruct (Nat.lt_ge_cases k n) as [Hk | Hk]; [lia|].
      rewrite (number_component_beyond v), (number_component_beyond t) in Hlow
        by lia.
      congruence.
    + intros j Hj. rewrite !or_zero_number_component by assumption.
      apply Hbefore. lia.
  - intros (k & Hk & Hbefore & Hlow). apply Hno. exists k.
    rewrite !or_zero_number_component in Hlow by assumption.
    split; [|exact Hlow].
    intros j Hj. specialize (Hbefore j ltac:(lia)).
    now rewrite !or_zero_number_component in Hbefore by assumption.
Qed.

Lemma compareVersion_spec_witness :
  compareVersion "2.40.3" "2.40.4" = true <->
  ~ below_at_first_difference "2.40.3" "2.40.4".
Proof.
  apply (proj1 compareVersion_spec); reflexivity.
Defined.

(** The numbers are doubles: above 2^53 two different runs of digits can be
    the same number, and the comparison is of the numbers.  So
    "1.9007199254740992" is not below "1.9007199254740993" as numbers,
    although the second component is the smaller integer; the statements
    about exact integers carry the bound for that reason. *)
Lemma compareVersion_rounds :
  dotted_numeric "1.9007199254740992" = true /\
  dotted_numeric "1.9007199254740993" = true /\
  lower_at_first_difference "1.9007199254740992" "1.9007199254740993" /\
  compareVersion "1.9007199254740992" "1.9007199254740993" = true /\
  Num.Number "9007199254740993" = Num.Number "9007199254740992".
Proof.
  assert (L : lower_at_first_difference "1.9007199254740992" "1.9007199254740993").
  { exists 1. split.
    - intros j Hj. assert (j = 0) as -> by lia. reflexivity.
    - vm_compute. reflexivity. }
  repeat split; try (vm_compute; reflexivity); assumption.
Qed.

(** The components are read by [Number], not as runs of digits: white
    space around a component is dropped, a sign, an exponent and a radix
    prefix are read, and a component that is no number counts as zero. *)
Lemma compareVersion_reads_numbers :
  compareVersion "2.40.5 " FIXED_VERSION = true /\
  compareVersion "-1" "0" = false /\
  compareVersion "0x3" FIXED_VERSION = true /\
  compareVersion "2.4e1.4" FIXED_VERSION = true /\
  compareVersion "2.40.4-beta" FIXED_VERSION = false /\
  compareVersion "Infinity" FIXED_VERSION = true.
Proof. vm_compute. repeat split. Qed.

(** ** Brace scan *)

Lemma brace_step (c : ascii) (d : Z) :
  (let d1 := if Ascii.eqb c "{" then (d + 1)%Z else d in
   if Ascii.eqb c "}" then (d1 - 1)%Z else d1) = (d + brace_delta c)%Z.
Proof.
  unfold brace_delta.
  destruct (Ascii.eqb c "{") eqn:Eo; destruct (Ascii.eqb c "}") eqn:Ec; simpl; try lia.
  apply Ascii.eqb_eq in Eo, Ec. subst c. discriminate.
Qed.

Lemma depth_after_shift (seen : text) (d : Z) :
  fold_right (fun c d => (brace_delta c + d)%Z) d seen
  = (d - 1 + depth_after seen)%Z.
Proof.
  unfold depth_after. induction seen as [|c seen IH]; simpl; lia.
Qed.

(** The loop, from a positive count: it stops after [n] more characters. *)
Lemma brace_loop_spec (rest : text) :
  forall (d : Z) (i : nat), (0 < d)%Z ->
  exists n,
    n <= length rest /\
    snd (brace_loop rest d i) = i + n /\
    fst (brace_loop rest d i) = (d - 1 + depth_after (firstn n rest))%Z /\
    (forall m, m < n -> (0 < d - 1 + depth_after (firstn m rest))%Z) /\
    ((fst (brace_loop rest d i) = 0%Z /\ 0 < n /\
      nth_error rest (n - 1) = Some "}"%char)
     \/ ((0 < fst (brace_loop rest d i))%Z /\ n = length rest)).
Proof.
  induction rest as [|c rest IH]; intros d i Hd.
  - exists 0. simpl. unfold depth_after; simpl.
    repeat split; lia.
  - simpl. destruct (0 <? d)%Z eqn:E; [| apply Z.ltb_ge in E; lia].
    rewrite brace_step.
    destruct (Z.eq_dec (d + brace_delta c) 0) as [Hz | Hnz].
    + exists 1. rewrite Hz.
      assert (Hstop : forall r j, brace_loop r 0 j = (0%Z, j))
        by (intros [|? ?] j; reflexivity).
      rewrite Hstop. simpl. unfold depth_after; simpl.
      repeat split; try lia.
      * intros m Hm. assert (m = 0) as -> by lia. simpl. lia.
      * left. repeat split; [lia|].
        unfold brace_delta in Hz.
        destruct (Ascii.eqb c "{"); [lia|].
        destruct (Ascii.eqb c "}") eqn:Ec; [|lia].
        apply Ascii.eqb_eq in Ec. now subst c.
    + assert (Hpos : (0 < d + brace_delta c)%Z).
      { unfold brace_delta in *.
        destruct (Ascii.eqb c "{"); [lia|]. destruct (Ascii.eqb c "}"); lia. }
      destruct (IH (d + brace_delta c)%Z (S i) Hpos)
        as (n & Hn & He & Hdepth & Hbefore & Hend).
      exists (S n). rewrite He, Hdepth.
      replace (firstn (S n) (c :: rest)) with (c :: firstn n rest) by reflexivity.
      unfold depth_after at 2. simpl fold_right. fold (depth_after (firstn n rest)).
      repeat split; try (simpl; lia).
      * intros [|m] Hm; [simpl; unfold depth_after; simpl; lia|].
        specialize (Hbefore m ltac:(lia)).
        simpl firstn. unfold depth_after. simpl fold_right.
        fold (depth_after (firstn m rest)). lia.
      * destruct Hend as [(Hz & Hn0 & Hlast) | (Hp & Hlen)].
        -- left. rewrite Hdepth in Hz. repeat split; [lia | lia |].
           replace (S n - 1) with (S (n - 1)) by lia. exact Hlast.
        -- right. rewrite Hdepth in Hp. split; [lia | simpl; lia].
Qed.

Lemma nth_error_skipn_at (s : text) (a k : nat) :
  nth_error (skipn a s) k = nth_error s (a + k).
Proof.
  revert s; induction a as [|a IH]; intros s; [reflexivity|].
  destruct s as [|c s]; simpl; [now destruct k | apply IH].
Qed.

Lemma brace_scan_range (code : text) (start : nat) :
  start <= length code ->
  start <= snd (brace_scan code start) <= length code.
Proof.
  intros H. unfold brace_scan.
  destruct (brace_loop_spec (skipn start code) 1%Z start ltac:(lia))
    as (n & Hn & He & _).
  rewrite length_skipn in Hn. lia.
Qed.

(** The loop against the scanner of the specification: the same index when
    the closing brace is found, the length of the text when it is not. *)
Lemma brace_loop_findMatchingClose (rest : text) :
  forall (d : Z) (i : nat), (0 < d)%Z ->
  match findMatchingClose_from rest d i with
  | Some e => brace_loop rest d i = (0%Z, e)
  | None => (0 < fst (brace_loop rest d i))%Z /\
            snd (brace_loop rest d i) = i + length rest
  end.
Proof.
  induction rest as [|c rest IH]; intros d i Hd; simpl.
  - split; [exact Hd | lia].
  - destruct (0 <? d)%Z eqn:E; [| apply Z.ltb_ge in E; lia].
    rewrite brace_step.
    destruct (d + brace_delta c =? 0)%Z eqn:Ez.
    + apply Z.eqb_eq in Ez. rewrite Ez. now destruct rest.
    + apply Z.eqb_neq in Ez.
      assert (Hpos : (0 < d + brace_delta c)%Z).
      { unfold brace_delta in *.
        destruct (Ascii.eqb c "{"); [lia|]. destruct (Ascii.eqb c "}"); lia. }
      specialize (IH _ (S i) Hpos).
      destruct (findMatchingClose_from rest (d + brace_delta c) (S i));
        [exact IH | split; [apply IH | destruct IH as [_ ->]; lia]].
Qed.

(** C2 (amended): from a start index in the text, just after an opening
    brace already counted, the scan adds one to the depth on each opening
    brace and takes one away on each closing brace, and keeps the depth
    positive before it stops.  When a brace brings the depth to zero it
    stops at the index just after that brace, which is the answer of
    [findMatchingClose]; when the text ends first it stops at the length of
    the text with a positive depth, and yields that length, not a separate
    "not found" signal.  On "{ a(); { b(); } c(); }" from index 1 it stops
    at 22, just after the last closing brace. *)
Theorem brace_scan_spec :
  (forall (code : text) (start : nat), start <= length code ->
     let braceCount := fst (brace_scan code start) in
     let funcEndIdx := snd (brace_scan code start) in
     start <= funcEndIdx <= length code /\
     braceCount = depth_after (JS.slice code start funcEndIdx) /\
     (forall j, start <= j < funcEndIdx ->
                (0 < depth_after (JS.slice code start j))%Z) /\
     ((braceCount = 0%Z /\ start < funcEndIdx /\
       nth_error code (funcEndIdx - 1) = Some "}"%char /\
       findMatchingClose code start = Some funcEndIdx)
      \/ ((0 < braceCount)%Z /\ funcEndIdx = length code /\
          findMatchingClose code start = None))) /\
  brace_scan "{ a(); { b(); } c(); }" 1 = (0%Z, 22) /\
  length ("{ a(); { b(); } c(); }" : text) = 22.
Proof.
  split; [| split; reflexivity].
  intros code start Hstart braceCount funcEndIdx.
  subst braceCount funcEndIdx. unfold brace_scan, findMatchingClose.
  pose proof (brace_loop_findMatchingClose (skipn start code) 1%Z start
                ltac:(lia)) as Hspec.
  destruct (brace_loop_spec (skipn start code) 1%Z start ltac:(lia))
    as (n & Hn & He & Hd & Hbefore & Hend).
  rewrite length_skipn in Hn.
  assert (Hslice : forall k, JS.slice code start (start + k)
                             = firstn k (skipn start code)).
  { intros k. unfold JS.slice. f_equal. lia. }
  rewrite He, Hd, Hslice.
  repeat split; try lia.
  - intros j Hj. replace j with (start + (j - start)) by lia.
    rewrite Hslice. specialize (Hbefore (j - start) ltac:(lia)). lia.
  - destruct Hend as [(Hz & Hn0 & Hlast) | (Hp & Hlen)].
    + left. rewrite Hd in Hz. repeat split; [lia | lia | |].
      * rewrite nth_error_skipn_at in Hlast.
        replace (start + n - 1) with (start + (n - 1)) by lia. exact Hlast.
      * destruct (findMatchingClose_from (skipn start code) 1 start).
        -- rewrite Hspec in He. simpl in He. now subst.
        -- destruct Hspec as [Hpos _]. rewrite Hd in Hpos. lia.
    + right. rewrite Hd in Hp. rewrite length_skipn in Hlen.
      repeat split; [lia | lia |].
      destruct (findMatchingClose_from (skipn start code) 1 start);
        [|reflexivity].
      rewrite Hspec in Hd. simpl in Hd. lia.
Qed.

Lemma brace_scan_spec_witness :
  let code : text := "{ a(); {" in
  let braceCount := fst (brace_scan code 1) in
  let funcEndIdx := snd (brace_scan code 1) in
  1 <= funcEndIdx <= length code /\
  braceCount = depth_after (JS.slice code 1 funcEndIdx) /\
  (forall j, 1 <= j < funcEndIdx -> (0 < depth_after (JS.slice code 1 j))%Z) /\
  ((braceCount = 0%Z /\ 1 < funcEndIdx /\
    nth_error code (funcEndIdx - 1) = Some "}"%char /\
    findMatchingClose code 1 = Some funcEndIdx)
   \/ ((0 < braceCount)%Z /\ funcEndIdx = length code /\
       findMatchingClose code 1 = None)).
Proof.
  apply (proj1 brace_scan_spec ("{ a(); {" : text) 1). simpl. lia.
Defined.

(** C2 as stated fails on an exhausted input: on "{ a(); {" from index 1
    the specification's scanner answers "not found", while the loop yields
    8, the length of the text, which is also what it yields on
    "{ a(); }", where the brace is found; so nothing read off the yielded
    index is a "not found" signal. *)
Lemma brace_scan_no_signal :
  findMatchingClose "{ a(); {" 1 = None /\
  snd (brace_scan "{ a(); {" 1) = 8 /\
  findMatchingClose "{ a(); }" 1 = Some 8 /\
  snd (brace_scan "{ a(); }" 1) = 8 /\
  ~ scan_signals_not_found.
Proof.
  repeat split; try reflexivity.
  intros (signal & H).
  pose proof (H ("{ a(); {" : text) 1 ltac:(simpl; lia)) as H1.
  pose proof (H ("{ a(); }" : text) 1 ltac:(simpl; lia)) as H2.
  change (findMatchingClose "{ a(); {" 1) with (@None nat) in H1.
  change (findMatchingClose "{ a(); }" 1) with (Some 8) in H2.
  change (snd (brace_scan "{ a(); {" 1)) with 8 in H1.
  destruct H2 as [_ H2]. congruence.
Qed.

(** ** Regular expressions *)

Lemma greedy_bound (p : ascii -> bool) (k : text -> option nat) :
  (forall s l, k s = Some l -> l <= length s) ->
  forall s l, Regex.greedy p k s = Some l -> l <= length s.
Proof.
  intros Hk. induction s as [|c s IH]; intros l; simpl.
  - apply Hk.
  - destruct (p c).
    + destruct (Regex.greedy p k s) as [n|] eqn:E.
      * intros [= <-]. specialize (IH n eq_refl). lia.
      * intros H. apply Hk in H. exact H.
    + intros H. apply Hk in H. exact H.
Qed.

Lemma match_here_bound (re : Regex.regex) :
  forall s l, Regex.match_here re s = Some l -> l <= length s.
Proof.
  induction re as [|it re IH]; intros s l; simpl.
  - intros [= <-]. lia.
  - destruct (Regex.quant it).
    + destruct s as [|c s]; [discriminate|].
      destruct (Regex.accepts it c); [|discriminate].
      destruct (Regex.match_here re s) as [n|] eqn:E; simpl; [|discriminate].
      intros [= <-]. apply IH in E. simpl. lia.
    + apply greedy_bound. exact IH.
    + destruct s as [|c s]; [discriminate|].
      destruct (Regex.accepts it c); [|discriminate].
      destruct (Regex.greedy (Regex.accepts it) (Regex.match_here re) s) as [n|] eqn:E;
        simpl; [|discriminate].
      intros [= <-]. apply (greedy_bound _ _ IH) in E. simpl. lia.
Qed.

Lemma exec_Some (re : Regex.regex) (s : text) (i l : nat) :
  Regex.exec re s = Some (i, l) ->
  i <= length s /\ Regex.match_here re (skipn i s) = Some l /\
  forall m, m < i -> Regex.match_here re (skipn m s) = None.
Proof.
  revert i; induction s as [|c s IH]; intros i; simpl.
  - destruct (Regex.match_here re []) eqn:E; [|discriminate].
    intros [= <- <-]. repeat split; [lia | exact E | intros m Hm; lia].
  - destruct (Regex.match_here re (c :: s)) eqn:E.
    + intros [= <- <-]. repeat split; [lia | exact E | intros m Hm; lia].
    + destruct (Regex.exec re s) as [[k n]|] eqn:Ek; simpl; [|discriminate].
      intros [= <- <-].
      destruct (IH k eq_refl) as (Hk & Hat & Hbefore).
      repeat split; [lia | exact Hat |].
      intros [|m] Hm; [exact E | apply Hbefore; lia].
Qed.

Lemma exec_None (re : Regex.regex) (s : text) (m : nat) :
  Regex.exec re s = None -> m <= length s ->
  Regex.match_here re (skipn m s) = None.
Proof.
  revert m; induction s as [|c s IH]; intros m; simpl.
  - destruct (Regex.match_here re []) eqn:E; [discriminate|].
    intros _ Hm. destruct m; [exact E | lia].
  - destruct (Regex.match_here re (c :: s)) eqn:E; [discriminate|].
    destruct (Regex.exec re s) eqn:Ek; simpl; [discriminate|].
    intros _ Hm. destruct m as [|m]; [exact E | apply IH; [reflexivity | lia]].
Qed.

Lemma exec_bound (re : Regex.regex) (s : text) (i l : nat) :
  Regex.exec re s = Some (i, l) -> i + l <= length s.
Proof.
  intros H. destruct (exec_Some _ _ _ _ H) as (Hi & Hat & _).
  apply match_here_bound in Hat. rewrite length_skipn in Hat. lia.
Qed.

Lemma match_here_lit (p : text) (re : Regex.regex) (s : text) :
  Regex.match_here (Regex.lit p ++ re) s =
  if JS.startsWith p s
  then option_map (Nat.add (length p)) (Regex.match_here re (skipn (length p) s))
  else None.
Proof.
  revert s; induction p as [|a p IH]; intros s.
  - simpl. now destruct (Regex.match_here re s).
  - destruct s as [|c s]; [reflexivity|].
    simpl. rewrite IH.
    destruct (Ascii.eqb a c); simpl; [|reflexivity].
    destruct (JS.startsWith p s); [|reflexivity].
    now destruct (Regex.match_here re (skipn (length p) s)).
Qed.

Lemma exec_lit (p : text) (s : text) :
  Regex.exec (Regex.lit p) s
  = option_map (fun i => (i, length p)) (JS.indexOf p s).
Proof.
  assert (H : forall s, Regex.match_here (Regex.lit p) s
                        = if JS.startsWith p s then Some (length p) else None).
  { intros s0. rewrite <- (app_nil_r (Regex.lit p)), match_here_lit.
    destruct (JS.startsWith p s0); [|reflexivity]. simpl. f_equal. lia. }
  induction s as [|c s IH]; simpl; rewrite H.
  - now destruct (JS.startsWith p []).
  - destruct (JS.startsWith p (c :: s)); [reflexivity|].
    rewrite IH. now destruct (JS.indexOf p s).
Qed.

Lemma test_lit (p : text) (s : text) :
  Regex.test (Regex.lit p) s = JS.includes p s.
Proof.
  unfold Regex.test, JS.includes. rewrite exec_lit.
  now destruct (JS.indexOf p s).
Qed.

(** ** magic-string *)

Lemma overwrite_create (s : text) (a b : nat) (content : text) :
  a < b -> b <= length s ->
  MagicString.overwrite a b content (MagicString.create s)
  = Ok (MagicString.mk s [] [] (overwritten s a b content)).
Proof.
  intros Hab Hb.
  unfold MagicString.overwrite, MagicString.create, overwritten,
    MagicString._split, MagicString.byStart, MagicString.byEnd, plain.
  destruct (Nat.eq_dec a 0) as [-> | Ha];
    destruct (Nat.eq_dec b (length s)) as [-> | Hbl]; ms_compute; ms_texts.
  all: try reflexivity.
  rewrite (firstn_all2 (skipn a s)) by (rewrite length_skipn; lia). reflexivity.
Qed.

Lemma toString_create (s : text) :
  MagicString.toString (MagicString.create s) = s.
Proof.
  unfold MagicString.toString, MagicString.create, MagicString.chunk_toString.
  cbn. now rewrite !app_nil_r.
Qed.

Lemma toString_overwritten (s : text) (a b : nat) (content : text) :
  MagicString.toString (MagicString.mk s [] [] (overwritten s a b content))
  = firstn a s ++ content ++ skipn b s.
Proof.
  unfold MagicString.toString, overwritten, plain, MagicString.chunk_toString.
  destruct (Nat.eqb_spec a 0) as [-> | Ha];
    destruct (Nat.eqb_spec b (length s)) as [-> | Hb];
    cbn -[skipn firstn]; rewrite ?skipn_all, ?app_nil_r; reflexivity.
Qed.

Lemma appendLeft_overwritten (s : text) (a b p : nat) (content inserted : text) :
  a < b -> b < p -> p <= length s ->
  exists m,
    MagicString.appendLeft p inserted
      (MagicString.mk s [] [] (overwritten s a b content)) = Ok m /\
    MagicString.toString m
    = firstn a s ++ content ++ JS.slice s b p ++ inserted ++ skipn p s.
Proof.
  intros Hab Hbp Hp.
  unfold MagicString.appendLeft, overwritten,
    MagicString._split, MagicString.byStart, MagicString.byEnd, plain.
  destruct (Nat.eq_dec a 0) as [-> | Ha];
    destruct (Nat.eq_dec p (length s)) as [-> | Hpl]; ms_compute; ms_texts.
  all: eexists; split; [reflexivity|].
  all: unfold MagicString.toString, MagicString.chunk_toString, JS.slice;
    cbn -[skipn firstn Nat.sub]; rewrite ?app_nil_r, ?skipn_all, <- ?app_assoc.
  all: rewrite ?(firstn_all2 (skipn b s)) by (rewrite length_skipn; lia).
  all: rewrite ?app_nil_r; reflexivity.
Qed.

Lemma appendLeft_create (s : text) (p : nat) (inserted : text) :
  0 < p -> p <= length s ->
  exists m,
    MagicString.appendLeft p inserted (MagicString.create s) = Ok m /\
    MagicString.toString m = firstn p s ++ inserted ++ skipn p s.
Proof.
  intros H0 Hp.
  unfold MagicString.appendLeft, MagicString.create,
    MagicString._split, MagicString.byStart, MagicString.byEnd.
  destruct (Nat.eq_dec p (length s)) as [-> | Hpl]; ms_compute; ms_texts.
  all: eexists; split; [reflexivity|].
  all: unfold MagicString.toString, MagicString.chunk_toString;
    cbn -[skipn firstn Nat.sub]; rewrite ?app_nil_r, ?skipn_all, <- ?app_assoc.
  all: rewrite ?app_nil_r; reflexivity.
Qed.

(** ** The replaceable plugin *)

Lemma renamed_eq (code : text) :
  renamed code =
  match JS.indexOf replaceable_literal code with
  | Some n => firstn n code ++ replaceable_renamed ++ skipn (n + 32) code
  | None => code
  end.
Proof.
  unfold renamed, JS.replace.
  destruct (JS.indexOf replaceable_literal code); reflexivity.
Qed.

Lemma replace_literal (code : text) :
  exists m,
    MagicString.replace replaceable_literal replaceable_renamed
      (MagicString.create code) = Ok m /\
    MagicString.toString m = renamed code /\
    m = match JS.indexOf replaceable_literal code with
        | Some n => MagicString.mk code [] [] (overwritten code n (n + 32) replaceable_renamed)
        | None => MagicString.create code
        end.
Proof.
  rewrite renamed_eq. unfold MagicString.replace.
  change (MagicString.original (MagicString.create code)) with code.
  destruct (JS.indexOf replaceable_literal code) as [n|] eqn:E.
  - change (JS.text_eqb replaceable_literal replaceable_renamed) with false.
    cbv iota.
    destruct (indexOf_Some _ _ _ E) as (Hn & Hat & _).
    apply startsWith_inv in Hat.
    assert (Hlen : n + 32 <= length code).
    { apply (f_equal (@length ascii)) in Hat.
      rewrite length_app, length_skipn in Hat.
      change (length replaceable_literal) with 32 in *. lia. }
    change (length replaceable_literal) with 32.
    rewrite overwrite_create by lia.
    eexists; split; [reflexivity|]. split; [|reflexivity].
    apply toString_overwritten.
  - eexists; split; [reflexivity|]. split; [|reflexivity]. apply toString_create.
Qed.

Lemma match_exact_signature (s : text) :
  JS.startsWith exact_signature s = true ->
  Regex.match_here Regex.replaceable_signature s = Some 34.
Proof.
  intros H. apply startsWith_inv in H. rewrite H.
  generalize (skipn (length exact_signature) s) as rest. intros rest.
  vm_compute. reflexivity.
Qed.

Lemma match_setup_text (s : text) :
  JS.startsWith setup_text s = true ->
  Regex.match_here Regex.setup_opener s = Some 9.
Proof.
  intros H. apply startsWith_inv in H. rewrite H.
  generalize (skipn (length setup_text) s) as rest. intros rest.
  vm_compute. reflexivity.
Qed.

Lemma exec_complete (re : Regex.regex) (s : text) (m l : nat) :
  m <= length s -> Regex.match_here re (skipn m s) = Some l ->
  exists i l', Regex.exec re s = Some (i, l') /\ i <= m.
Proof.
  intros Hm Hat.
  destruct (Regex.exec re s) as [[i l']|] eqn:E.
  - exists i, l'. split; [reflexivity|].
    destruct (exec_Some _ _ _ _ E) as (_ & _ & Hbefore).
    destruct (Nat.le_gt_cases i m) as [Hle | Hgt]; [exact Hle|].
    rewrite (Hbefore m Hgt) in Hat. discriminate.
  - rewrite (exec_None _ _ _ E Hm) in Hat. discriminate.
Qed.

Lemma setup_found (body : text) :
  JS.includes setup_text body = true ->
  exists index setup_length,
    Regex.exec Regex.setup_opener body = Some (index, setup_length).
Proof.
  unfold JS.includes.
  destruct (JS.indexOf setup_text body) as [k|] eqn:E; [|discriminate].
  intros _. destruct (indexOf_Some _ _ _ E) as (Hk & Hat & _).
  apply match_setup_text in Hat.
  destruct (exec_complete _ _ _ _ Hk Hat) as (i & l & Hex & _).
  now exists i, l.
Qed.

Lemma slice_length (s : text) (a b : nat) : length (JS.slice s a b) <= b - a.
Proof. unfold JS.slice. rewrite length_firstn. lia. Qed.

Lemma slice_skipn (s : text) (a b : nat) :
  a <= b -> skipn a s = JS.slice s a b ++ skipn b s.
Proof.
  intros H. unfold JS.slice.
  rewrite <- (firstn_skipn (b - a) (skipn a s)) at 1.
  rewrite skipn_skipn. do 2 f_equal. lia.
Qed.

(** A text whose first [function replaceable] is the exact signature meets
    the two first-match conditions of the statement below. *)
Lemma first_signature_exact (code : text) (n : nat) :
  JS.indexOf "function replaceable" code = Some n ->
  JS.startsWith exact_signature (skipn n code) = true ->
  JS.indexOf replaceable_literal code = Some n /\
  option_map fst (Regex.exec Regex.replaceable_signature code) = Some n.
Proof.
  intros Hidx Hsig.
  destruct (indexOf_Some _ _ _ Hidx) as (Hn & _ & Hbefore).
  split.
  - apply indexOf_first; [exact Hn | |].
    + exact (startsWith_app_l replaceable_literal " {" _ Hsig).
    + intros m Hm.
      destruct (JS.startsWith replaceable_literal (skipn m code)) eqn:E;
        [|reflexivity].
      apply (startsWith_app_l "function replaceable" "(name, icon)") in E.
      rewrite (Hbefore m Hm) in E. discriminate.
  - destruct (exec_complete _ _ _ _ Hn (match_exact_signature _ Hsig))
      as (i & l & Hex & Hi).
    rewrite Hex. cbn [option_map fst]. f_equal.
    destruct (Nat.eq_dec i n) as [-> | Hne]; [reflexivity|].
    destruct (exec_Some _ _ _ _ Hex) as (_ & Hat & _).
    unfold Regex.replaceable_signature in Hat.
    rewrite match_here_lit, (Hbefore i ltac:(lia)) in Hat. discriminate.
Qed.

(** C1 (amended): let the first occurrence of the literal
    [function replaceable(name, icon)] and the first match of the signature
    pattern both be at index [n], where the text reads exactly
    [function replaceable(name, icon) {], and let the body slice, from the
    end of that signature to the end of the brace scan, contain [setup() {].
    Then the replaceable plugin, not skipped and with its filter accepting
    the identity, returns the text with the parameter renamed to [_icon_]
    and the binding inserted at the offset (slice start + index of the
    first match of the setup pattern in the slice + length of that match),
    and nothing of the original text is removed. *)
Theorem replaceable_patch (st : State) (code id : text) (n : nat) :
  skipFix st = false ->
  call_filter (fixReplaceableFilter st) id = Ok true ->
  JS.indexOf replaceable_literal code = Some n ->
  JS.startsWith exact_signature (skipn n code) = true ->
  option_map fst (Regex.exec Regex.replaceable_signature code) = Some n ->
  let endIdx := n + 34 in
  let body := JS.slice code endIdx (snd (brace_scan code endIdx)) in
  JS.includes setup_text body = true ->
  exists index setup_length o,
    Regex.exec Regex.setup_opener body = Some (index, setup_length) /\
    replaceable_transform st code id = Ok (Some o) /\
    let offset := endIdx + index + setup_length in
    code = firstn n code ++ replaceable_literal
           ++ JS.slice code (n + 32) offset ++ skipn offset code /\
    Output.code o
    = firstn n code ++ replaceable_renamed
      ++ JS.slice code (n + 32) offset ++ binding ++ skipn offset code.
Proof.
  intros Hskip Hfilter Hlit Hsig Hfirst endIdx body Hsetup.
  destruct (setup_found _ Hsetup) as (index & setup_length & Hex).
  exists index, setup_length.
  assert (Hre : Regex.exec Regex.replaceable_signature code = Some (n, 34)).
  { destruct (Regex.exec Regex.replaceable_signature code) as [[i l]|] eqn:E;
      [|discriminate].
    simpl in Hfirst. injection Hfirst as ->.
    destruct (exec_Some _ _ _ _ E) as (_ & Hat & _).
    rewrite (match_exact_signature _ Hsig) in Hat. congruence. }
  pose proof (exec_bound _ _ _ _ Hre) as Hend.
  pose proof (brace_scan_range code endIdx Hend) as Hfunc.
  pose proof (exec_bound _ _ _ _ Hex) as Hin.
  pose proof (slice_length code endIdx (snd (brace_scan code endIdx))) as Hbody.
  fold body in Hbody.
  set (offset := endIdx + index + setup_length).
  assert (Hoff : n + 32 < offset <= length code) by (subst offset endIdx; lia).
  destruct (replace_literal code) as (m & Hm & _ & Hmeq).
  rewrite Hlit in Hmeq.
  destruct (appendLeft_overwritten code n (n + 32) offset replaceable_renamed
              binding ltac:(lia) ltac:(lia) ltac:(lia)) as (m' & Hm' & Hstr).
  rewrite <- Hmeq in Hm'.
  eexists. split; [exact Hex|]. split.
  - unfold replaceable_transform. rewrite Hskip, Hfilter. cbn [bind negb].
    fold replaceable_literal replaceable_renamed. rewrite Hm. cbn [bind].
    rewrite Hre. fold endIdx. fold body. rewrite Hex. fold offset.
    rewrite Hm'. cbn [bind]. reflexivity.
  - cbn zeta. split; [|exact Hstr].
    rewrite <- (firstn_skipn n code) at 1. f_equal.
    apply startsWith_app_l with (p := replaceable_literal) (q := " {" : text) in Hsig.
    apply startsWith_inv in Hsig. rewrite Hsig at 1. f_equal.
    rewrite skipn_skipn.
    change (length replaceable_literal) with 32.
    rewrite Nat.add_comm.
    apply slice_skipn. lia.
Qed.

Lemma replaceable_patch_witness :
  let code : text :=
    "function replaceable(name, icon) { return { setup() { return icon } } }" in
  let body := JS.slice code 34 (snd (brace_scan code 34)) in
  exists index setup_length o,
    Regex.exec Regex.setup_opener body = Some (index, setup_length) /\
    replaceable_transform (config "serve" initial) code
      "/app/node_modules/.vite/deps/naive-ui.js" = Ok (Some o) /\
    let offset := 34 + index + setup_length in
    code = firstn 0 code ++ replaceable_literal
           ++ JS.slice code 32 offset ++ skipn offset code /\
    Output.code o
    = firstn 0 code ++ replaceable_renamed
      ++ JS.slice code 32 offset ++ binding ++ skipn offset code.
Proof.
  apply (replaceable_patch (config "serve" initial)
           ("function replaceable(name, icon) { return { setup() { return icon } } }" : text)
           ("/app/node_modules/.vite/deps/naive-ui.js" : text) 0);
    vm_compute; reflexivity.
Defined.

(** C1 as stated fails when an earlier signature is the first match of
    the pattern: the text below contains the exact signature at index 34,
    with [setup() {] inside its body, yet the pattern first matches the
    function at index 0, whose body has no [setup() {]; the parameter is
    renamed and no binding is inserted. *)
Lemma replaceable_patch_first_match_only :
  let code : text :=
    "function replaceable (a, icon) {} function replaceable(name, icon) { setup() { } }" in
  let st := config "serve" initial in
  let id : text := "/app/node_modules/.vite/deps/naive-ui.js" in
  skipFix st = false /\
  call_filter (fixReplaceableFilter st) id = Ok true /\
  JS.startsWith exact_signature (skipn 34 code) = true /\
  JS.includes setup_text (JS.slice code 68 (snd (brace_scan code 68))) = true /\
  exists o,
    replaceable_transform st code id = Ok (Some o) /\
    Output.code o =
      ("function replaceable (a, icon) {} function replaceable(name, _icon_) { setup() { } }" : text) /\
    JS.includes binding (Output.code o) = false /\
    ~ (exists o', replaceable_transform st code id = Ok (Some o') /\
                  JS.includes binding (Output.code o') = true).
Proof.
  repeat split; try (vm_compute; reflexivity).
  eexists. repeat split; try (vm_compute; reflexivity).
  intros (o' & Hrun & Hin). vm_compute in Hrun.
  injection Hrun as <-. vm_compute in Hin. discriminate.
Qed.

(** C5: when the signature pattern does not match, or the setup pattern
    does not match in the body slice, the replaceable plugin still returns
    normally, and its text is the result of the literal replacement alone;
    when the literal does not occur either, the text is the input. *)
Theorem insertion_skipped (st : State) (code id : text) :
  skipFix st = false ->
  call_filter (fixReplaceableFilter st) id = Ok true ->
  (Regex.exec Regex.replaceable_signature code = None \/
   exists startIdx len,
     Regex.exec Regex.replaceable_signature code = Some (startIdx, len) /\
     Regex.exec Regex.setup_opener
       (JS.slice code (startIdx + len) (snd (brace_scan code (startIdx + len))))
     = None) ->
  exists o,
    replaceable_transform st code id = Ok (Some o) /\
    Output.code o = renamed code /\
    (JS.indexOf replaceable_literal code = None -> Output.code o = code).
Proof.
  intros Hskip Hfilter Hmissing.
  destruct (replace_literal code) as (m & Hm & Hstr & _).
  exists (output_of id m). split; [|split].
  - unfold replaceable_transform. rewrite Hskip, Hfilter. cbn [bind negb].
    fold replaceable_literal replaceable_renamed. rewrite Hm. cbn [bind].
    destruct Hmissing as [-> | (startIdx & len & -> & ->)]; reflexivity.
  - exact Hstr.
  - intros Hnone. cbn [output_of Output.code]. rewrite Hstr, renamed_eq, Hnone.
    reflexivity.
Qed.

Lemma insertion_skipped_witness :
  exists o,
    replaceable_transform (config "serve" initial)
      ("function replaceable(name, icon) { return icon }" : text)
      ("/app/node_modules/.vite/deps/naive-ui.js" : text) = Ok (Some o) /\
    Output.code o = renamed "function replaceable(name, icon) { return icon }" /\
    (JS.indexOf replaceable_literal "function replaceable(name, icon) { return icon }" = None ->
     Output.code o = ("function replaceable(name, icon) { return icon }" : text)).
Proof.
  apply (insertion_skipped (config "serve" initial)
           ("function replaceable(name, icon) { return icon }" : text)
           ("/app/node_modules/.vite/deps/naive-ui.js" : text)).
  - reflexivity.
  - vm_compute. reflexivity.
  - right. exists 0, 34. split; vm_compute; reflexivity.
Defined.

(** ** The rename and the insertion are independent *)

Lemma match_setup_positive (s : text) (l : nat) :
  Regex.match_here Regex.setup_opener s = Some l -> 0 < l.
Proof.
  unfold Regex.setup_opener. rewrite match_here_lit.
  destruct (JS.startsWith "setup" s); [|discriminate].
  destruct (Regex.match_here _ _); simpl; [|discriminate].
  intros [= <-]. lia.
Qed.

Lemma insertion_offset_range (code : text) (p : nat) :
  insertion_offset code = Some p -> 0 < p <= length code.
Proof.
  unfold insertion_offset.
  destruct (Regex.exec Regex.replaceable_signature code) as [[startIdx len]|] eqn:Hre;
    [|discriminate].
  destruct (Regex.exec Regex.setup_opener _) as [[index setup_length]|] eqn:Hex;
    [|discriminate].
  intros [= <-].
  pose proof (exec_bound _ _ _ _ Hre) as Hend.
  pose proof (brace_scan_range code (startIdx + len) Hend) as Hfunc.
  pose proof (exec_bound _ _ _ _ Hex) as Hin.
  pose proof (slice_length code (startIdx + len) (snd (brace_scan code (startIdx + len)))) as Hbody.
  destruct (exec_Some _ _ _ _ Hex) as (_ & Hat & _).
  apply match_setup_positive in Hat. lia.
Qed.

(** C10: the rename looks for the literal
    [function replaceable(name, icon)] and the insertion for a pattern that
    allows white space, so a text without the literal in which both anchors
    of the insertion are found gets the binding, which refers to [_icon_],
    and no rename; such a text is
    [function replaceable (name, icon) { setup() { } }]. *)
Theorem insertion_without_rename :
  (forall (st : State) (code id : text) (p : nat),
      skipFix st = false ->
      call_filter (fixReplaceableFilter st) id = Ok true ->
      JS.indexOf replaceable_literal code = None ->
      insertion_offset code = Some p ->
      exists o,
        replaceable_transform st code id = Ok (Some o) /\
        Output.code o = firstn p code ++ binding ++ skipn p code) /\
  (let code : text := "function replaceable (name, icon) { setup() { } }" in
   JS.indexOf replaceable_literal code = None /\
   Regex.exec Regex.replaceable_signature code = Some (0, 35) /\
   insertion_offset code = Some 45 /\
   exists o,
     replaceable_transform (config "serve" initial) code
       "/app/node_modules/.vite/deps/naive-ui.js" = Ok (Some o) /\
     Output.code o
     = ("function replaceable (name, icon) { setup() {" : text) ++ binding ++ " } }" /\
     JS.includes "fixNaiveuiIconCloneVnode(_icon_)" (Output.code o) = true /\
     JS.includes replaceable_renamed (Output.code o) = false).
Proof.
  split.
  - intros st code id p Hskip Hfilter Hnone Hoff.
    pose proof (insertion_offset_range _ _ Hoff) as Hp.
    destruct (replace_literal code) as (m & Hm & _ & Hmeq).
    rewrite Hnone in Hmeq. subst m.
    destruct (appendLeft_create code p binding ltac:(lia) ltac:(lia))
      as (m' & Hm' & Hstr).
    exists (output_of id m'). split; [|exact Hstr].
    unfold replaceable_transform. rewrite Hskip, Hfilter. cbn [bind negb].
    fold replaceable_literal replaceable_renamed. rewrite Hm. cbn [bind].
    unfold insertion_offset in Hoff.
    destruct (Regex.exec Regex.replaceable_signature code) as [[startIdx len]|];
      [|discriminate].
    destruct (Regex.exec Regex.setup_opener _) as [[index setup_length]|];
      [|discriminate].
    injection Hoff as ->. rewrite Hm'. reflexivity.
  - repeat split; try (vm_compute; reflexivity).
    eexists. repeat split; vm_compute; reflexivity.
Qed.

Lemma insertion_without_rename_witness :
  exists o,
    replaceable_transform (config "serve" initial)
      ("function replaceable (name, icon) { setup() { } }" : text)
      ("/app/node_modules/.vite/deps/naive-ui.js" : text) = Ok (Some o) /\
    Output.code o
    = firstn 45 ("function replaceable (name, icon) { setup() { } }" : text)
      ++ binding
      ++ skipn 45 ("function replaceable (name, icon) { setup() { } }" : text).
Proof.
  apply (proj1 insertion_without_rename (config "serve" initial)
           ("function replaceable (name, icon) { setup() { } }" : text)
           ("/app/node_modules/.vite/deps/naive-ui.js" : text) 45);
    vm_compute; reflexivity.
Defined.

(** ** The version gate and the skip flag *)

Lemma getNaiveUIVersion_swallows (node : Node) (root : text) (message : string) :
  read_version node root = Throw message -> getNaiveUIVersion node root = VNull.
Proof. unfold getNaiveUIVersion. now intros ->. Qed.

Lemma configResolved_skip (node : Node) (root : text) (st : State) :
  skipFix st = false ->
  (skipFix (snd (configResolved node root st)) = true <->
   exists v, getNaiveUIVersion node root = VString v /\ v <> [] /\
             compareVersion v FIXED_VERSION = true).
Proof.
  intros Hst. unfold configResolved.
  destruct (getNaiveUIVersion node root) as [| |b|n|v|items|props] eqn:E;
    cbn [truthy snd].
  1-2: split; [rewrite Hst; discriminate | intros (v & [=] & _)].
  - destruct b; cbn [snd];
      (split; [rewrite Hst; discriminate | intros (v & [=] & _)]).
  - destruct (negb (n =? 0)%Z); cbn [snd];
      (split; [rewrite Hst; discriminate | intros (v & [=] & _)]).
  - destruct v as [|c v]; cbn [length Nat.eqb negb snd].
    + split; [rewrite Hst; discriminate|].
      intros (v & [= <-] & Hne & _). now contradiction Hne.
    + destruct (compareVersion (c :: v) FIXED_VERSION) eqn:Ecmp; cbn [snd skipFix].
      * split; [|reflexivity]. intros _. exists (c :: v).
        repeat split; [discriminate | exact Ecmp].
      * split; [rewrite Hst; discriminate|].
        intros (v' & [= <-] & _ & Hcmp). congruence.
  - split; [rewrite Hst; discriminate | intros (v & [=] & _)].
  - split; [rewrite Hst; discriminate | intros (v & [=] & _)].
Qed.

Lemma pre_transform_patches (st : State) (code id : text) :
  skipFix st = false ->
  call_filter (fixReplaceableFilter st) id = Ok true \/
  (call_filter (fixReplaceableFilter st) id = Ok false /\
   call_filter (fixExportDefaultFilter st) id = Ok true) ->
  exists o, pre_transform st code id = Ok (Some o) /\
            Output.code o = import_line ++ code.
Proof.
  intros Hskip Hwanted. unfold pre_transform. rewrite Hskip.
  eexists. split.
  - destruct Hwanted as [-> | [-> ->]]; cbn [bind negb]; reflexivity.
  - cbn [output_of Output.code]. unfold MagicString.prepend.
    unfold MagicString.toString, MagicString.create, MagicString.chunk_toString.
    cbn. now rewrite !app_nil_r.
Qed.

(** C4: from a state in which the skip flag is false, the flag is true
    after [configResolved] exactly when reading the version succeeds with a
    non-empty string [v] and [compareVersion v "2.40.4"] is true.
    [getNaiveUIVersion] returns what the read returns when it succeeds.
    When the read throws, [getNaiveUIVersion] returns [null],
    [configResolved] ends normally and leaves the state, and so the flag, as
    it was, and the [pre] plugin patches a file that the replaceable filter
    accepts. *)
Theorem skip_flag (node : Node) (root : text) (st : State) :
  skipFix st = false ->
  (forall version, read_version node root = Ok version ->
     getNaiveUIVersion node root = version) /\
  (skipFix (snd (configResolved node root st)) = true <->
   exists v, read_version node root = Ok (VString v) /\ v <> [] /\
             compareVersion v FIXED_VERSION = true) /\
  (forall message, read_version node root = Throw message ->
     getNaiveUIVersion node root = VNull /\
     configResolved node root st = (Ok tt, st) /\
     skipFix (snd (configResolved node root st)) = false /\
     forall code id,
       call_filter (fixReplaceableFilter st) id = Ok true ->
       exists o, pre_transform st code id = Ok (Some o) /\
                 Output.code o = import_line ++ code).
Proof.
  intros Hst. split; [|split].
  - intros version Hread. unfold getNaiveUIVersion. now rewrite Hread.
  - rewrite (configResolved_skip node root st Hst). unfold getNaiveUIVersion.
    split; intros (v & Hv & Hne & Hcmp); exists v; repeat split; try assumption.
    + destruct (read_version node root) as [version | message];
        [now subst | discriminate].
    + now rewrite Hv.
  - intros message Hfail.
    pose proof (getNaiveUIVersion_swallows _ _ _ Hfail) as Hnull.
    assert (Hend : configResolved node root st = (Ok tt, st))
      by (unfold configResolved; now rewrite Hnull).
    repeat split; [exact Hnull | exact Hend | now rewrite Hend |].
    intros code id Hid. apply pre_transform_patches; [exact Hst | now left].
Qed.

Lemma skip_flag_witness :
  let st := config "serve" initial in
  (getNaiveUIVersion (node_with_naive_ui "2.41.0") "/app" = VString "2.41.0" /\
   skipFix (snd (configResolved (node_with_naive_ui "2.41.0") "/app" st)) = true) /\
  (getNaiveUIVersion (node_with_naive_ui "2.40.3") "/app" = VString "2.40.3" /\
   skipFix (snd (configResolved (node_with_naive_ui "2.40.3") "/app" st)) = false) /\
  (getNaiveUIVersion node_without_naive_ui "/app" = VNull /\
   configResolved node_without_naive_ui "/app" st = (Ok tt, st) /\
   skipFix (snd (configResolved node_without_naive_ui "/app" st)) = false /\
   forall code id,
     call_filter (fixReplaceableFilter st) id = Ok true ->
     exists o, pre_transform st code id = Ok (Some o) /\
               Output.code o = import_line ++ code).
Proof.
  intros st.
  pose proof (skip_flag (node_with_naive_ui "2.41.0") ("/app" : text) st eq_refl)
    as (Hnew & Hflag & _).
  pose proof (skip_flag (node_with_naive_ui "2.40.3") ("/app" : text) st eq_refl)
    as (Hold & Hunset & _).
  pose proof (skip_flag node_without_naive_ui ("/app" : text) st eq_refl)
    as (_ & _ & Hfail).
  split; [|split].
  - split; [apply Hnew; reflexivity|].
    apply Hflag. exists ("2.41.0" : text).
    split; [reflexivity | split; [discriminate | vm_compute; reflexivity]].
  - split; [apply Hold; reflexivity|].
    destruct (skipFix (snd (configResolved (node_with_naive_ui "2.40.3") "/app" st)));
      [|reflexivity].
    destruct (proj1 Hunset eq_refl) as (v & Hv & _ & Hcmp).
    injection Hv as <-. vm_compute in Hcmp. discriminate.
  - exact (Hfail "Cannot find module 'naive-ui/package.json'" eq_refl).
Defined.

(** C6: when the skip flag is true, the [transform] hook of each of the
    three plugins declines whatever the text and the identity, so the text
    after the three stages is the input text; and a resolved version
    ["2.41.0"], which is at least ["2.40.4"], sets the flag. *)
Theorem skip_declines :
  (forall (transformMap : TransformMap) (st : State) (code id : text),
      skipFix st = true ->
      pre_transform st code id = Ok None /\
      replaceable_transform st code id = Ok None /\
      export_default_transform transformMap st code id = Ok None /\
      pipeline transformMap st code id = Ok code) /\
  (forall (node : Node) (root : text) (st : State),
      getNaiveUIVersion node root = VString "2.41.0" ->
      compareVersion "2.41.0" FIXED_VERSION = true /\
      skipFix (snd (configResolved node root st)) = true).
Proof.
  split.
  - intros tm st code id Hskip.
    unfold pipeline, pre_transform, replaceable_transform, export_default_transform.
    rewrite Hskip. repeat split.
  - intros node root st Hv. split; [reflexivity|].
    unfold configResolved. rewrite Hv. reflexivity.
Qed.

Lemma skip_declines_witness :
  let st := snd (configResolved (node_with_naive_ui "2.41.0") "/app"
                   (config "serve" initial)) in
  let code : text := "function replaceable(name, icon) { setup() { } }" in
  let id : text := "/app/node_modules/.vite/deps/naive-ui.js" in
  pre_transform st code id = Ok None /\
  replaceable_transform st code id = Ok None /\
  export_default_transform no_recipes st code id = Ok None /\
  pipeline no_recipes st code id = Ok code.
Proof.
  apply (proj1 skip_declines no_recipes).
  apply (proj2 skip_declines (node_with_naive_ui "2.41.0") ("/app" : text)).
  vm_compute. reflexivity.
Defined.

(** ** Path filters *)

Lemma matches_one (p id : text) :
  JS.includes [Ascii.zero] id = false ->
  Filter.matches (Filter.createFilter [Regex.lit p]) id
  = JS.includes p (Filter.normalizePath id).
Proof.
  intros H. unfold Filter.matches, Filter.createFilter. rewrite H.
  cbn [existsb length Nat.eqb]. rewrite test_lit, orb_false_r.
  now destruct (JS.includes p (Filter.normalizePath id)).
Qed.

Lemma includes_longer (p q s : text) :
  JS.startsWith p q = true -> JS.includes p s = false -> JS.includes q s = false.
Proof.
  intros Hpq H. apply startsWith_inv in Hpq. rewrite Hpq.
  destruct (JS.includes (p ++ skipn (length p) q) s) eqn:E; [|reflexivity].
  apply includes_prefix in E. congruence.
Qed.

(** C7 (amended): let [id] be an identity without a NUL character that
    matches [/\/\.vite\/deps\/naive-ui\.js/] once its backslashes are read
    as slashes.  After [config] with a command other than ["build"], the
    replaceable filter and the export-default filter both accept [id].
    After [config] with ["build"], the replaceable filter accepts [id]
    exactly when [id] contains the path of the replaceable icons, and the
    export-default filter exactly when [id] contains the path of one of the
    four component modules; so neither accepts [id] exactly when [id]
    contains none of these five paths, as for every [id] that does not
    contain ["/naive-ui/es/"]. *)
Theorem aggregate_cache_filters (command id : text) (st : State) :
  JS.includes [Ascii.zero] id = false ->
  JS.includes aggregate_cache_path (Filter.normalizePath id) = true ->
  JS.text_eqb command "build" = false ->
  let dev := config command st in
  let build := config "build" st in
  let pathId := Filter.normalizePath id in
  isBuild dev = false /\ isBuild build = true /\
  call_filter (fixReplaceableFilter dev) id = Ok true /\
  call_filter (fixExportDefaultFilter dev) id = Ok true /\
  call_filter (fixReplaceableFilter build) id
  = Ok (JS.includes replaceable_path pathId) /\
  call_filter (fixExportDefaultFilter build) id
  = Ok (existsb (fun p => JS.includes p pathId) export_default_paths) /\
  ((call_filter (fixReplaceableFilter build) id = Ok false /\
    call_filter (fixExportDefaultFilter build) id = Ok false) <->
   forall p, In p (replaceable_path :: export_default_paths) ->
             JS.includes p pathId = false) /\
  (JS.includes "/naive-ui/es/" pathId = false ->
   call_filter (fixReplaceableFilter build) id = Ok false /\
   call_filter (fixExportDefaultFilter build) id = Ok false).
Proof.
  intros Hnul Hdev Hcmd dev build pathId. subst dev build pathId.
  unfold config, aggregate_cache_path in *.
  rewrite Hcmd. change (JS.text_eqb "build" "build") with true.
  cbn [isBuild fixReplaceableFilter fixExportDefaultFilter call_filter].
  rewrite !matches_one, Hdev by exact Hnul.
  assert (Hexport :
            Filter.matches
              (Filter.createFilter
                 [Regex.lit "/naive-ui/es/checkbox/src/Checkbox.mjs";
                  Regex.lit "/naive-ui/es/back-top/src/BackTop.mjs";
                  Regex.lit "/naive-ui/es/rate/src/Rate.mjs";
                  Regex.lit "/naive-ui/es/result/src/Result.mjs"]) id
            = existsb (fun p => JS.includes p (Filter.normalizePath id))
                export_default_paths).
  { unfold Filter.matches, Filter.createFilter. rewrite Hnul.
    cbn [existsb length Nat.eqb export_default_paths]. rewrite !test_lit.
    now destruct (_ || _). }
  rewrite Hexport. unfold replaceable_path, export_default_paths.
  cbn [existsb In]. rewrite orb_false_r.
  repeat split; try reflexivity.
  - intros [[= Hr] [= He]] p Hp.
    apply orb_false_elim in He as [Hc He].
    apply orb_false_elim in He as [Hb He].
    apply orb_false_elim in He as [Hra Hre].
    destruct Hp as [<- | [<- | [<- | [<- | [<- | []]]]]]; assumption.
  - f_equal. apply H. now left.
  - f_equal.
    rewrite (H _ (or_intror (or_introl eq_refl))).
    rewrite (H _ (or_intror (or_intror (or_introl eq_refl)))).
    rewrite (H _ (or_intror (or_intror (or_intror (or_introl eq_refl))))).
    rewrite (H _ (or_intror (or_intror (or_intror (or_intror (or_introl eq_refl)))))).
    reflexivity.
  - f_equal. apply (includes_longer "/naive-ui/es/"); [reflexivity | exact H].
  - assert (Hno : forall q : text,
               JS.startsWith "/naive-ui/es/" q = true ->
               JS.includes q (Filter.normalizePath id) = false)
      by (intros q Hq; exact (includes_longer _ _ _ Hq H)).
    f_equal. now rewrite !Hno.
Qed.

Lemma aggregate_cache_filters_witness :
  let id : text := "/app/node_modules/.vite/deps/naive-ui.js?v=5f3a9c1e" in
  let dev := config "serve" initial in
  let build := config "build" initial in
  isBuild dev = false /\ isBuild build = true /\
  call_filter (fixReplaceableFilter dev) id = Ok true /\
  call_filter (fixExportDefaultFilter dev) id = Ok true /\
  call_filter (fixReplaceableFilter build) id = Ok false /\
  call_filter (fixExportDefaultFilter build) id = Ok false.
Proof.
  intros id dev build.
  destruct (aggregate_cache_filters ("serve" : text) id initial
              eq_refl eq_refl eq_refl)
    as (Hdev & Hbuild & Hr & He & _ & _ & _ & Hneither).
  destruct (Hneither eq_refl) as [Hnr Hne].
  repeat split; assumption.
Defined.

(** C7 as stated fails on both sides.  A project kept in a directory whose
    path contains that of the replaceable icons has an aggregate cache path
    that the replaceable filter of a build accepts; and an identity with a
    NUL character, the mark of a virtual module, is refused by the filters
    of a development server although it matches the pattern. *)
Lemma aggregate_cache_filters_stated :
  let inside : text :=
    "/w/naive-ui/es/_internal/icons/replaceable/node_modules/.vite/deps/naive-ui.js" in
  let marked : text := Ascii.zero :: "/app/node_modules/.vite/deps/naive-ui.js" in
  let dev := config "serve" initial in
  let build := config "build" initial in
  (Regex.test (Regex.lit aggregate_cache_path) inside = true /\
   call_filter (fixReplaceableFilter dev) inside = Ok true /\
   call_filter (fixExportDefaultFilter dev) inside = Ok true /\
   call_filter (fixReplaceableFilter build) inside = Ok true) /\
  (Regex.test (Regex.lit aggregate_cache_path) marked = true /\
   call_filter (fixReplaceableFilter dev) marked = Ok false /\
   call_filter (fixExportDefaultFilter dev) marked = Ok false).
Proof. vm_compute. repeat split. Qed.

(** ** Dispatch *)

(** The [switch (true)] takes the first case that applies, in the order
    checkbox, back-top, rate, result: a later case is taken only when the
    identity contains none of the earlier names. *)
Lemma dispatch_order (id : text) :
  (dispatch id = Some Checkbox <-> JS.includes "checkbox" id = true) /\
  (dispatch id = Some BackTop <->
   JS.includes "checkbox" id = false /\ JS.includes "back-top" id = true) /\
  (dispatch id = Some Rate <->
   JS.includes "checkbox" id = false /\ JS.includes "back-top" id = false /\
   JS.includes "rate" id = true) /\
  (dispatch id = Some Result <->
   JS.includes "checkbox" id = false /\ JS.includes "back-top" id = false /\
   JS.includes "rate" id = false /\ JS.includes "result" id = true) /\
  (dispatch id = None <->
   JS.includes "checkbox" id = false /\ JS.includes "back-top" id = false /\
   JS.includes "rate" id = false /\ JS.includes "result" id = false).
Proof.
  unfold dispatch.
  destruct (JS.includes "checkbox" id); [repeat split; intros; try easy; intuition congruence|].
  destruct (JS.includes "back-top" id); [repeat split; intros; try easy; intuition congruence|].
  destruct (JS.includes "rate" id); [repeat split; intros; try easy; intuition congruence|].
  destruct (JS.includes "result" id); repeat split; intros; try easy; intuition congruence.
Qed.

(** In a build, on a file that the export-default filter accepts, the
    recipe of the case taken is the one that is called. *)
Lemma export_default_transform_build
    (transformMap : TransformMap) (st : State) (code id : text) :
  isBuild st = true -> skipFix st = false ->
  call_filter (fixExportDefaultFilter st) id = Ok true ->
  export_default_transform transformMap st code id
  = (let* magicString :=
       match dispatch id with
       | Some Checkbox => checkbox transformMap (MagicString.create code) code true
       | Some BackTop => backTop transformMap (MagicString.create code) code true
       | Some Rate => rate transformMap (MagicString.create code) code true
       | Some Result => result_ transformMap (MagicString.create code)
       | None => Ok (MagicString.create code)
       end in
     Ok (Some (output_of id magicString))).
Proof.
  intros Hbuild Hskip Hid.
  unfold export_default_transform. rewrite Hskip, Hid, Hbuild. reflexivity.
Qed.

(** C8: in a build the export-default stage does not select the recipe of
    result exactly when the identity contains ["result"].  The identity
    below is the [Result.mjs] module of naive-ui in a project kept under
    [/home/corporate]: the export-default filter of a build accepts it and
    it contains ["result"], but it also contains ["rate"] (in
    [corporate]), whose case comes first, so the recipe called on it is
    that of rate, whatever the recipes and the text; the recipe of result
    is called on the same module in a project kept under [/app]. *)
Theorem dispatch_shadowed :
  let id : text := "/home/corporate/node_modules/naive-ui/es/result/src/Result.mjs" in
  let st := config "build" initial in
  call_filter (fixExportDefaultFilter st) id = Ok true /\
  JS.includes "result" id = true /\
  dispatch id = Some Rate /\
  ~ (dispatch id = Some Result <-> JS.includes "result" id = true) /\
  (forall (transformMap : TransformMap) (code : text),
     export_default_transform transformMap st code id
     = (let* magicString := rate transformMap (MagicString.create code) code true in
        Ok (Some (output_of id magicString)))) /\
  (forall (transformMap : TransformMap) (code : text),
     export_default_transform transformMap st code
       "/app/node_modules/naive-ui/es/result/src/Result.mjs"
     = (let* magicString := result_ transformMap (MagicString.create code) in
        Ok (Some (output_of "/app/node_modules/naive-ui/es/result/src/Result.mjs"
                    magicString)))).
Proof.
  intros id st.
  assert (Hid : call_filter (fixExportDefaultFilter st) id = Ok true)
    by (vm_compute; reflexivity).
  assert (Hresult : JS.includes "result" id = true) by (vm_compute; reflexivity).
  assert (Hrate : dispatch id = Some Rate) by (vm_compute; reflexivity).
  split; [exact Hid|]. split; [exact Hresult|]. split; [exact Hrate|].
  split; [|split].
  - intros [_ H]. specialize (H Hresult). congruence.
  - intros tm code.
    rewrite (export_default_transform_build tm st code id eq_refl eq_refl Hid).
    now rewrite Hrate.
  - intros tm code.
    rewrite (export_default_transform_build tm st code _ eq_refl eq_refl)
      by (vm_compute; reflexivity).
    reflexivity.
Qed.

(** ** The virtual overlay *)

Lemma GetSubstitution_plain (matched before after template : text) :
  dollar_free template = true ->
  JS.GetSubstitution matched before after template = template.
Proof.
  induction template as [|c template IH]; [reflexivity|].
  simpl. intros H. apply andb_prop in H as [Hc Ht].
  destruct (Ascii.eqb c "$"); [discriminate|].
  now rewrite IH.
Qed.

Lemma dollar_free_app (a b : text) :
  dollar_free (a ++ b) = dollar_free a && dollar_free b.
Proof. apply forallb_app. Qed.

(** With no dollar sign in the virtual root, [resolveId] joins the root and
    the name that follows the prefix. *)
Lemma resolveId_joins (VirtualPath name : text) :
  dollar_free VirtualPath = true ->
  resolveId VirtualPath (virtual_prefix ++ name)
  = Some (VirtualPath ++ "/" ++ name).
Proof.
  intros H. unfold resolveId. rewrite startsWith_app.
  unfold JS.replace.
  assert (Hidx : JS.indexOf virtual_prefix (virtual_prefix ++ name) = Some 0).
  { destruct name; reflexivity. }
  rewrite Hidx. cbn [firstn Nat.add app].
  rewrite GetSubstitution_plain
    by (rewrite dollar_free_app, H; reflexivity).
  rewrite skipn_app, skipn_all, Nat.sub_diag. cbn [skipn app].
  now rewrite <- app_assoc.
Qed.

Lemma resolveId_declines (VirtualPath id : text) :
  JS.startsWith virtual_prefix id = false -> resolveId VirtualPath id = None.
Proof. unfold resolveId. now intros ->. Qed.

(** [load] gives what [readFileSync] gives for an existing path that starts
    with the virtual root, and declines every other identity. *)
Lemma load_spec (VirtualPath : text) (node : Node) (id : text) :
  (JS.startsWith VirtualPath id = true -> existsSync node id = true ->
   forall content, readFileSync node id = Ok content ->
                   load VirtualPath node id = Ok (Some content)) /\
  (JS.startsWith VirtualPath id = false \/ existsSync node id = false ->
   load VirtualPath node id = Ok None) /\
  (forall content, load VirtualPath node id = Ok (Some content) ->
                   readFileSync node id = Ok content).
Proof.
  unfold load. repeat split.
  - intros -> -> content ->. reflexivity.
  - intros [-> | H]; [reflexivity|].
    destruct (JS.startsWith VirtualPath id); [now rewrite H | reflexivity].
  - intros content.
    destruct (JS.startsWith VirtualPath id); [|discriminate].
    destruct (existsSync node id); [|discriminate].
    destruct (readFileSync node id); cbn [bind]; congruence.
Qed.

(** C9, at a virtual root with [$$] in a directory name: the replacement
    text of [replace] is read as a template, in which [$$] stands for one
    dollar sign, so [resolveId] does not return the root joined with the
    name, and [load] declines the identity that it returns, whatever the
    files. *)
Theorem resolveId_dollar :
  let VirtualPath : text := "/srv/a$$b/src/virtual" in
  let id : text := "virtual:fixNaiveuiIcon-path:deepCloneVnode.js" in
  JS.startsWith virtual_prefix id = true /\
  resolveId VirtualPath id = Some ("/srv/a$b/src/virtual/deepCloneVnode.js" : text) /\
  resolveId VirtualPath id <> Some (VirtualPath ++ "/" ++ "deepCloneVnode.js") /\
  forall node : Node,
    load VirtualPath node "/srv/a$b/src/virtual/deepCloneVnode.js" = Ok None.
Proof.
  repeat split; try (vm_compute; reflexivity).
  vm_compute. discriminate.
Qed.

(** * Further properties *)


(** ** More on version comparison *)

Lemma gt_irrefl (x : Num.number) : Num.gt x x = false.
Proof.
  destruct x as [|q| |]; simpl; try reflexivity.
  apply negb_false_iff, Qle_bool_iff, Qle_refl.
Qed.

Lemma compare_from_refl (v : list Num.number) (remaining i : nat) :
  compare_from v v i remaining = true.
Proof.
  revert i; induction remaining as [|r IH]; intros i; simpl; [reflexivity|].
  unfold Num.lt. rewrite gt_irrefl. apply IH.
Qed.

Lemma compare_from_total (v1 v2 : list Num.number) (remaining i : nat) :
  compare_from v1 v2 i remaining = false ->
  compare_from v2 v1 i remaining = true.
Proof.
  revert i; induction remaining as [|r IH]; intros i; simpl; [discriminate|].
  unfold Num.lt.
  destruct (Num.gt (Num.or_zero (nth_error v1 i)) (Num.or_zero (nth_error v2 i)));
    [discriminate|].
  destruct (Num.gt (Num.or_zero (nth_error v2 i)) (Num.or_zero (nth_error v1 i)));
    [reflexivity|].
  apply IH.
Qed.

(** Past the end of both lists every comparison is between zeros. *)
Lemma compare_from_beyond (v1 v2 : list Num.number) (k i : nat) :
  length v1 <= i -> length v2 <= i -> compare_from v1 v2 i k = true.
Proof.
  revert i; induction k as [|k IH]; intros i H1 H2; simpl; [reflexivity|].
  rewrite (proj2 (nth_error_None v1 i) H1), (proj2 (nth_error_None v2 i) H2).
  simpl. apply IH; lia.
Qed.

Lemma compare_from_more (v1 v2 : list Num.number) (k remaining i : nat) :
  length v1 <= i + remaining -> length v2 <= i + remaining ->
  compare_from v1 v2 i (remaining + k) = compare_from v1 v2 i remaining.
Proof.
  revert i; induction remaining as [|r IH]; intros i H1 H2; simpl.
  - apply compare_from_beyond; lia.
  - destruct (Num.gt _ _); [reflexivity|].
    destruct (Num.lt _ _); [reflexivity|].
    apply IH; lia.
Qed.

Lemma compare_from_ext (v1 v1' v2 v2' : list Num.number) (remaining i : nat) :
  (forall j, Num.or_zero (nth_error v1 j) = Num.or_zero (nth_error v1' j)) ->
  (forall j, Num.or_zero (nth_error v2 j) = Num.or_zero (nth_error v2' j)) ->
  compare_from v1 v2 i remaining = compare_from v1' v2' i remaining.
Proof.
  intros H1 H2. revert i; induction remaining as [|r IH]; intros i; simpl;
    [reflexivity|].
  rewrite H1, H2, IH. reflexivity.
Qed.

Lemma split_nonempty (sep : ascii) (s : text) : JS.split sep s <> [].
Proof.
  destruct s as [|c s]; simpl; [discriminate|].
  destruct (Ascii.eqb c sep); [discriminate|].
  destruct (JS.split sep s); discriminate.
Qed.

Lemma split_app (sep : ascii) (a b : text) :
  JS.split sep (a ++ sep :: b) = JS.split sep a ++ JS.split sep b.
Proof.
  induction a as [|c a IH]; simpl.
  - now rewrite Ascii.eqb_refl.
  - destruct (Ascii.eqb c sep); [now rewrite IH|].
    rewrite IH. pose proof (split_nonempty sep a) as Hne.
    destruct (JS.split sep a); [contradiction | reflexivity].
Qed.

Lemma or_zero_trailing_zero (l : list Num.number) (j : nat) :
  Num.or_zero (nth_error (l ++ [Num.Finite 0]) j) = Num.or_zero (nth_error l j).
Proof.
  destruct (Nat.lt_ge_cases j (length l)) as [Hlt | Hge].
  - now rewrite nth_error_app1.
  - rewrite nth_error_app2 by exact Hge.
    rewrite (proj2 (nth_error_None l j) Hge).
    destruct (j - length l) as [|[|k]]; reflexivity.
Qed.

Lemma compareVersion_as_loop (v1 v2 : list Num.number) (n : nat) :
  Nat.max (length v1) (length v2) <= n ->
  compare_from v1 v2 0 n = compare_from v1 v2 0 (Nat.max (length v1) (length v2)).
Proof.
  intros H.
  replace n with (Nat.max (length v1) (length v2)
                  + (n - Nat.max (length v1) (length v2))) by lia.
  apply compare_from_more; lia.
Qed.

(** X1: [compareVersion v v] is true for every text [v], numeric or not. *)
Theorem compareVersion_reflexive (v : text) : compareVersion v v = true.
Proof.
  unfold compareVersion. apply compare_from_refl.
Qed.

(** X2: for all texts [v] and [t], [compareVersion v t] or
    [compareVersion t v] is true. *)
Theorem compareVersion_total (v t : text) :
  compareVersion v t = true \/ compareVersion t v = true.
Proof.
  destruct (compareVersion v t) eqn:E; [now left | right].
  unfold compareVersion in *. rewrite Nat.max_comm.
  now apply compare_from_total.
Qed.

(** X3: appending [.0] to either argument does not change the result of
    [compareVersion], for all texts. *)
Theorem compareVersion_trailing_zero (v t : text) :
  compareVersion (v ++ ".0") t = compareVersion v t /\
  compareVersion v (t ++ ".0") = compareVersion v t.
Proof.
  unfold compareVersion.
  change (v ++ ".0") with (v ++ "."%char :: ("0" : text)).
  change (t ++ ".0") with (t ++ "."%char :: ("0" : text)).
  rewrite !split_app, !map_app.
  change (map Num.Number (JS.split "." "0")) with [Num.Finite 0].
  set (v1 := map Num.Number (JS.split "." v)).
  set (v2 := map Num.Number (JS.split "." t)).
  split.
  - rewrite (compare_from_ext (v1 ++ [Num.Finite 0]) v1 v2 v2)
      by (intros j; first [apply or_zero_trailing_zero | reflexivity]).
    apply compareVersion_as_loop. rewrite length_app. simpl. lia.
  - rewrite (compare_from_ext v1 v1 (v2 ++ [Num.Finite 0]) v2)
      by (intros j; first [apply or_zero_trailing_zero | reflexivity]).
    apply compareVersion_as_loop. rewrite length_app. simpl. lia.
Qed.

(** Two sequences agree up to [i], or have a first index at which they
    differ. *)
Lemma first_difference (f g : nat -> Z) (i : nat) :
  (forall j, j <= i -> f j = g j) \/
  exists j, j <= i /\ (forall k, k < j -> f k = g k) /\ f j <> g j.
Proof.
  induction i as [|i IH].
  - destruct (Z.eq_dec (f 0) (g 0)) as [He | Hne].
    + left. intros j Hj. now replace j with 0 by lia.
    + right. exists 0. repeat split; [lia | intros k Hk; lia | exact Hne].
  - destruct IH as [Hall | (j & Hj & Heq & Hne)].
    + destruct (Z.eq_dec (f (S i)) (g (S i))) as [He | Hne].
      * left. intros j Hj.
        destruct (Nat.eq_dec j (S i)) as [-> | Hd]; [exact He | apply Hall; lia].
      * right. exists (S i).
        repeat split; [lia | intros k Hk; apply Hall; lia | exact Hne].
    + right. exists j. repeat split; [lia | exact Heq | exact Hne].
Qed.

Lemma not_lower_trans (v t u : text) :
  ~ lower_at_first_difference v t -> ~ lower_at_first_difference t u ->
  ~ lower_at_first_difference v u.
Proof.
  intros Hvt Htu (i & Heq & Hlt).
  destruct (first_difference (component v) (component t) i)
    as [Hall | (j & Hj & Hbefore & Hne)].
  - apply Htu. exists i. split.
    + intros k Hk. rewrite <- (Hall k) by lia. apply Heq, Hk.
    + rewrite <- (Hall i) by lia. exact Hlt.
  - destruct (Z.lt_ge_cases (component v j) (component t j)) as [Hlo | Hhi].
    + apply Hvt. exists j. split; [exact Hbefore | exact Hlo].
    + apply Htu. exists j. split.
      * intros k Hk. rewrite <- (Hbefore k Hk). apply Heq. lia.
      * destruct (Nat.eq_dec j i) as [-> | Hd]; [lia|].
        rewrite <- (Heq j) by lia. lia.
Qed.

(** X4: on dotted numeric strings with components up to 2^53,
    [compareVersion] is transitive. *)
Theorem compareVersion_transitive (v t u : text) :
  dotted_numeric v = true -> dotted_numeric t = true -> dotted_numeric u = true ->
  exact v = true -> exact t = true -> exact u = true ->
  compareVersion v t = true -> compareVersion t u = true ->
  compareVersion v u = true.
Proof.
  intros Hv Ht Hu Ev Et Eu Hvt Htu.
  apply compareVersion_exact in Hvt; try assumption.
  apply compareVersion_exact in Htu; try assumption.
  apply compareVersion_exact; try assumption.
  now apply not_lower_trans with t.
Qed.

Lemma compareVersion_transitive_witness :
  compareVersion "2.41.0" "2.40.4" = true.
Proof.
  apply (compareVersion_transitive "2.41.0" "2.40.10" "2.40.4"); reflexivity.
Defined.

(** X5: on dotted numeric strings with components up to 2^53,
    [compareVersion] is true in both directions exactly when the two
    versions have the same components, absent ones counting as zero. *)
Theorem compareVersion_antisymmetric (v t : text) :
  dotted_numeric v = true -> dotted_numeric t = true ->
  exact v = true -> exact t = true ->
  (compareVersion v t = true /\ compareVersion t v = true <->
   forall i, component v i = component t i).
Proof.
  intros Hv Ht Ev Et.
  rewrite (compareVersion_exact v t), (compareVersion_exact t v) by assumption.
  split.
  - intros [Hvt Htv] i.
    destruct (first_difference (component v) (component t) i)
      as [Hall | (j & Hj & Hbefore & Hne)]; [apply Hall; lia|].
    exfalso.
    destruct (Z.lt_ge_cases (component v j) (component t j)) as [Hlo | Hhi].
    + apply Hvt. exists j. split; [exact Hbefore | exact Hlo].
    + apply Htv. exists j. split; [|lia].
      intros k Hk. symmetry. now apply Hbefore.
  - intros Hall. split; intros (i & _ & Hlt); rewrite Hall in Hlt; lia.
Qed.

Lemma compareVersion_antisymmetric_witness :
  compareVersion "2.40" "2.40.0" = true /\ compareVersion "2.40.0" "2.40" = true <->
  forall i, component "2.40" i = component "2.40.0" i.
Proof.
  apply (compareVersion_antisymmetric "2.40" "2.40.0"); reflexivity.
Defined.


(** ** The virtual root *)

Lemma endsWith_app (p d : text) : JS.endsWith p (d ++ p) = true.
Proof. unfold JS.endsWith. rewrite rev_app_distr. apply startsWith_app. Qed.

Lemma firstn_drop_suffix (d p : text) :
  firstn (length (d ++ p) - length p) (d ++ p) = d.
Proof.
  rewrite length_app, Nat.add_sub, firstn_app, Nat.sub_diag, firstn_all.
  simpl. apply app_nil_r.
Qed.

(** X6: [getVirtualPath] turns a directory [d/dist] or [d\dist] into
    [d/src/virtual], whatever [d], leaves every other directory as it is,
    and applied twice gives what it gives once. *)
Theorem getVirtualPath_spec :
  (forall d : text,
      getVirtualPath (d ++ "/dist") = d ++ "/src/virtual" /\
      getVirtualPath (d ++ "\dist") = d ++ "/src/virtual") /\
  (forall d : text,
      JS.endsWith "/dist" d = false -> JS.endsWith "\dist" d = false ->
      getVirtualPath d = d) /\
  (forall d : text, getVirtualPath (getVirtualPath d) = getVirtualPath d).
Proof.
  assert (Hslash : forall d : text,
             getVirtualPath (d ++ "/dist") = d ++ "/src/virtual").
  { intros d. unfold getVirtualPath. rewrite endsWith_app. cbn [orb].
    f_equal. apply (firstn_drop_suffix d "/dist"). }
  assert (Hback : forall d : text,
             getVirtualPath (d ++ "\dist") = d ++ "/src/virtual").
  { intros d. unfold getVirtualPath. rewrite (endsWith_app "\dist" d).
    rewrite orb_true_r. f_equal. apply (firstn_drop_suffix d "\dist"). }
  assert (Hkeep : forall d : text,
             JS.endsWith "/dist" d = false -> JS.endsWith "\dist" d = false ->
             getVirtualPath d = d).
  { intros d H1 H2. unfold getVirtualPath. now rewrite H1, H2. }
  repeat split; try apply Hslash; try apply Hback; try exact Hkeep.
  intros d.
  destruct (JS.endsWith "/dist" d || JS.endsWith "\dist" d) eqn:E.
  - assert (Hd : getVirtualPath d
                 = firstn (length d - 5) d ++ "/src/virtual")
      by (unfold getVirtualPath; now rewrite E).
    rewrite Hd.
    apply Hkeep; unfold JS.endsWith; rewrite rev_app_distr; reflexivity.
  - apply orb_false_elim in E as [H1 H2].
    rewrite (Hkeep d H1 H2). exact (Hkeep d H1 H2).
Qed.

Lemma getVirtualPath_spec_witness :
  getVirtualPath "/app/node_modules/vite-fix-naiveui-icon/src"
  = ("/app/node_modules/vite-fix-naiveui-icon/src" : text).
Proof.
  apply (proj1 (proj2 getVirtualPath_spec)); reflexivity.
Defined.

(** ** The shared state *)

(** X7: [getNaiveUIVersion] gives the same answer for a root and for that
    root followed by a slash. *)
Theorem getNaiveUIVersion_trailing_slash (node : Node) (root : text) :
  JS.endsWith "/" root = false ->
  getNaiveUIVersion node (root ++ "/") = getNaiveUIVersion node root.
Proof.
  intros H. unfold getNaiveUIVersion, read_version.
  rewrite H, (endsWith_app "/" root). reflexivity.
Qed.

Lemma getNaiveUIVersion_trailing_slash_witness :
  getNaiveUIVersion (node_with_naive_ui "2.38.1") ("/app" ++ "/")
  = getNaiveUIVersion (node_with_naive_ui "2.38.1") "/app".
Proof.
  apply (getNaiveUIVersion_trailing_slash (node_with_naive_ui "2.38.1") "/app").
  reflexivity.
Defined.

(** X8: [configResolved] never changes [isBuild] or the two filters and
    never resets a skip flag that is set; either it leaves the state as it
    was, or it sets the flag and logs one line.  It throws exactly when the
    version read is truthy and not a string, and then the state is as it
    was. *)
Theorem configResolved_frame (node : Node) (root : text) (st : State) :
  let st' := snd (configResolved node root st) in
  isBuild st' = isBuild st /\
  fixReplaceableFilter st' = fixReplaceableFilter st /\
  fixExportDefaultFilter st' = fixExportDefaultFilter st /\
  (skipFix st = true -> skipFix st' = true) /\
  (st' = st \/
   skipFix st' = true /\ exists line, logged st' = logged st ++ [line]) /\
  ((exists message, fst (configResolved node root st) = Throw message) <->
   truthy (getNaiveUIVersion node root) = true /\
   forall v, getNaiveUIVersion node root <> VString v) /\
  (forall message, fst (configResolved node root st) = Throw message -> st' = st).
Proof.
  unfold configResolved.
  destruct (getNaiveUIVersion node root) as [| |b|n|v|items|props];
    cbn [truthy];
    try destruct b; try destruct (negb (n =? 0)%Z);
    try (destruct (negb (length v =? 0));
         [destruct (compareVersion v FIXED_VERSION)|]);
    cbn [fst snd isBuild skipFix fixReplaceableFilter fixExportDefaultFilter
         logged];
    repeat split;
    try solve [ tauto | discriminate | eexists; reflexivity
              | intros [? ?]; discriminate
              | intros [_ Hnot]; now contradiction (Hnot v)
              | match goal with
                | H : exists _, _ |- _ => destruct H; discriminate
                end
              | right; split; [reflexivity | eexists; reflexivity] ].
Qed.

(** X9: a call of [config] replaces what an earlier call assigned, it
    keeps the skip flag and the log, and [isBuild] is whether the command
    is [build]. *)
Theorem config_last_wins (c1 c2 : text) (st : State) :
  config c2 (config c1 st) = config c2 st /\
  skipFix (config c1 st) = skipFix st /\
  logged (config c1 st) = logged st /\
  isBuild (config c1 st) = JS.text_eqb c1 "build".
Proof.
  unfold config.
  destruct (JS.text_eqb c1 "build"), (JS.text_eqb c2 "build"); repeat split.
Qed.

(** X10: [config] and [configResolved] can run in either order: the state
    and the way [configResolved] ends are the same. *)
Theorem config_configResolved_commute (node : Node) (root command : text) (st : State) :
  snd (configResolved node root (config command st))
  = config command (snd (configResolved node root st)) /\
  fst (configResolved node root (config command st))
  = fst (configResolved node root st).
Proof.
  unfold configResolved.
  destruct (truthy (getNaiveUIVersion node root)); [|split; reflexivity].
  destruct (getNaiveUIVersion node root) as [| |b|n|v|items|props];
    try (split; reflexivity).
  destruct (compareVersion v FIXED_VERSION); [|split; reflexivity].
  unfold config. destruct (JS.text_eqb command "build"); split; reflexivity.
Qed.


(** ** Which identities the stages accept *)

Lemma includes_char (c : ascii) (s : text) :
  JS.includes [c] s = existsb (Ascii.eqb c) s.
Proof.
  unfold JS.includes. induction s as [|a s IH]; [reflexivity|].
  simpl. rewrite andb_true_r.
  destruct (Ascii.eqb c a); [reflexivity|].
  rewrite <- IH. now destruct (JS.indexOf [c] s).
Qed.

Lemma normalizePath_idempotent (id : text) :
  Filter.normalizePath (Filter.normalizePath id) = Filter.normalizePath id.
Proof.
  unfold Filter.normalizePath. rewrite map_map. apply map_ext.
  intros c. destruct (Ascii.eqb c "\") eqn:E; [reflexivity | now rewrite E].
Qed.

Lemma normalizePath_nul (id : text) :
  JS.includes [Ascii.zero] (Filter.normalizePath id) = JS.includes [Ascii.zero] id.
Proof.
  rewrite !includes_char. unfold Filter.normalizePath.
  induction id as [|c id IH]; [reflexivity|].
  simpl. rewrite IH. f_equal.
  destruct (Ascii.eqb c "\") eqn:E; [|reflexivity].
  apply Ascii.eqb_eq in E. now subst c.
Qed.

Lemma matches_normalized (filter : Filter.t) (id : text) :
  Filter.matches filter (Filter.normalizePath id) = Filter.matches filter id.
Proof.
  unfold Filter.matches.
  now rewrite normalizePath_nul, normalizePath_idempotent.
Qed.

Lemma matches_nul (filter : Filter.t) (id : text) :
  JS.includes [Ascii.zero] id = true -> Filter.matches filter id = false.
Proof. unfold Filter.matches. now intros ->. Qed.


Lemma accepts_normalized (command id : text) (st : State) :
  accepts (fixReplaceableFilter (config command st)) (Filter.normalizePath id)
  = accepts (fixReplaceableFilter (config command st)) id /\
  accepts (fixExportDefaultFilter (config command st)) (Filter.normalizePath id)
  = accepts (fixExportDefaultFilter (config command st)) id.
Proof.
  unfold config, accepts.
  destruct (JS.text_eqb command "build");
    cbn [fixReplaceableFilter fixExportDefaultFilter call_filter];
    now rewrite !matches_normalized.
Qed.

Lemma pre_transform_configured (command code id : text) (st : State) :
  let st' := config command st in
  pre_transform st' code id =
  if skipFix st then Ok None
  else if accepts (fixReplaceableFilter st') id
          || accepts (fixExportDefaultFilter st') id
       then Ok (Some (output_of id (MagicString.prepend import_line
                                      (MagicString.create code))))
       else Ok None.
Proof.
  cbn zeta. unfold pre_transform, config, accepts.
  destruct (skipFix st) eqn:Hskip;
    destruct (JS.text_eqb command "build");
    cbn [fixReplaceableFilter fixExportDefaultFilter call_filter skipFix bind];
    rewrite ?Hskip; try reflexivity.
  - destruct (Filter.matches _ id); cbn [bind negb orb]; [reflexivity|].
    destruct (Filter.matches _ id); reflexivity.
  - destruct (Filter.matches _ id); cbn [bind negb orb]; reflexivity.
Qed.

Lemma toString_prepend (content code : text) :
  MagicString.toString (MagicString.prepend content (MagicString.create code))
  = content ++ code.
Proof.
  unfold MagicString.toString, MagicString.prepend, MagicString.create,
    MagicString.chunk_toString.
  cbn. now rewrite !app_nil_r.
Qed.

(** X11: once [config] has run, the pre plugin never throws; it declines
    exactly when the skip flag is set or both filters reject the identity,
    and otherwise returns the import line followed by the input.  With a
    command other than [build] the two filters accept the same
    identities. *)
Theorem pre_transform_after_config (command code id : text) (st : State) :
  let st' := config command st in
  (exists r, pre_transform st' code id = Ok r /\
             (r = None <->
              skipFix st = true \/
              (accepts (fixReplaceableFilter st') id = false /\
               accepts (fixExportDefaultFilter st') id = false)) /\
             (forall o, r = Some o -> Output.code o = import_line ++ code)) /\
  (JS.text_eqb command "build" = false ->
   accepts (fixExportDefaultFilter st') id
   = accepts (fixReplaceableFilter st') id).
Proof.
  cbn zeta. split.
  - rewrite pre_transform_configured.
    destruct (skipFix st).
    + eexists. split; [reflexivity|]. split; [tauto | discriminate].
    + destruct (accepts (fixReplaceableFilter (config command st)) id);
        destruct (accepts (fixExportDefaultFilter (config command st)) id);
        cbn [orb]; eexists; (split; [reflexivity|]); split;
        try (split; [discriminate | intros [H | [H1 H2]]; discriminate]);
        try (intros o [= <-]; apply toString_prepend);
        try (split; [intros _; right; split; reflexivity | reflexivity]);
        try discriminate.
  - intros Hdev. unfold config. rewrite Hdev. reflexivity.
Qed.

Lemma pre_transform_after_config_witness :
  accepts (fixExportDefaultFilter (config "serve" initial))
    "/app/node_modules/.vite/deps/naive-ui.js"
  = accepts (fixReplaceableFilter (config "serve" initial))
      "/app/node_modules/.vite/deps/naive-ui.js".
Proof.
  apply (proj2 (pre_transform_after_config "serve" "" 
                  "/app/node_modules/.vite/deps/naive-ui.js" initial)).
  reflexivity.
Defined.

(** X12: once [config] has run, an identity written with backslashes is
    accepted by a filter, and declined by the pre plugin, exactly when the
    same identity written with slashes is. *)
Theorem stages_accept_backslash_paths (command code id : text) (st : State) :
  let st' := config command st in
  accepts (fixReplaceableFilter st') (Filter.normalizePath id)
  = accepts (fixReplaceableFilter st') id /\
  accepts (fixExportDefaultFilter st') (Filter.normalizePath id)
  = accepts (fixExportDefaultFilter st') id /\
  (pre_transform st' code (Filter.normalizePath id) = Ok None <->
   pre_transform st' code id = Ok None).
Proof.
  cbn zeta. destruct (accepts_normalized command id st) as [Hr He].
  repeat split; [exact Hr | exact He | |];
    rewrite !pre_transform_configured, Hr, He;
    destruct (skipFix st); try tauto;
    destruct (_ || _); try tauto; discriminate.
Qed.

(** X14: the pre plugin does not look for its own import: run again on
    its output, it returns the text with the import line twice. *)
Theorem pre_transform_twice (st : State) (code id : text) (o : Output.t) :
  pre_transform st code id = Ok (Some o) ->
  exists o', pre_transform st (Output.code o) id = Ok (Some o') /\
             Output.code o' = import_line ++ import_line ++ code.
Proof.
  unfold pre_transform.
  destruct (skipFix st); [discriminate|].
  destruct (call_filter (fixReplaceableFilter st) id) as [r|]; [|discriminate].
  cbn [bind].
  destruct (if r then Ok true else call_filter (fixExportDefaultFilter st) id)
    as [w|]; [|discriminate].
  cbn [bind]. destruct w; cbn [negb]; [|discriminate].
  intros [= <-]. eexists. split; [reflexivity|].
  cbn [output_of Output.code]. now rewrite !toString_prepend.
Qed.

Lemma pre_transform_twice_witness :
  exists o',
    pre_transform (config "serve" initial) (import_line ++ "export {}")
      "/app/node_modules/.vite/deps/naive-ui.js" = Ok (Some o') /\
    Output.code o' = import_line ++ import_line ++ "export {}".
Proof.
  apply (pre_transform_twice (config "serve" initial) "export {}"
           "/app/node_modules/.vite/deps/naive-ui.js"
           (output_of "/app/node_modules/.vite/deps/naive-ui.js"
              (MagicString.prepend import_line (MagicString.create "export {}")))).
  vm_compute. reflexivity.
Defined.

(** X13: once [config] has run, an identity that contains a NUL character
    is declined by all three plugins, and the text comes out of the three
    stages as it went in. *)
Theorem stages_decline_nul (transformMap : TransformMap)
    (command code id : text) (st : State) :
  JS.includes [Ascii.zero] id = true ->
  let st' := config command st in
  pre_transform st' code id = Ok None /\
  replaceable_transform st' code id = Ok None /\
  export_default_transform transformMap st' code id = Ok None /\
  pipeline transformMap st' code id = Ok code.
Proof.
  intros Hnul. cbn zeta.
  unfold pipeline, pre_transform, replaceable_transform, export_default_transform,
    config.
  destruct (skipFix st) eqn:Hskip;
    destruct (JS.text_eqb command "build");
    cbn [fixReplaceableFilter fixExportDefaultFilter call_filter skipFix];
    rewrite ?Hskip; cbn [bind]; rewrite ?(matches_nul _ _ Hnul); cbn;
    rewrite ?Hskip; cbn; rewrite ?(matches_nul _ _ Hnul); cbn;
    repeat split.
Qed.

Lemma stages_decline_nul_witness :
  let id : text := Ascii.zero :: "/app/node_modules/.vite/deps/naive-ui.js" in
  let st' := config "serve" initial in
  let code : text := "function replaceable(name, icon) { setup() { } }" in
  pre_transform st' code id = Ok None /\
  replaceable_transform st' code id = Ok None /\
  export_default_transform no_recipes st' code id = Ok None /\
  pipeline no_recipes st' code id = Ok code.
Proof.
  apply (stages_decline_nul no_recipes "serve"
           ("function replaceable(name, icon) { setup() { } }" : text)
           (Ascii.zero :: ("/app/node_modules/.vite/deps/naive-ui.js" : text))
           initial).
  reflexivity.
Defined.



(** ** More on the brace scan *)

Lemma brace_loop_stopped (rest : text) (i : nat) :
  brace_loop rest 0 i = (0%Z, i).
Proof. now destruct rest. Qed.

(** The loop over a text in two parts is the loop over the first part,
    continued over the second while the count is positive. *)
Lemma brace_loop_app (a b : text) :
  forall (d : Z) (i : nat),
  brace_loop (a ++ b) d i =
  if (0 <? fst (brace_loop a d i))%Z
  then brace_loop b (fst (brace_loop a d i)) (snd (brace_loop a d i))
  else brace_loop a d i.
Proof.
  induction a as [|c a IH]; intros d i.
  - cbn [app brace_loop fst snd].
    destruct (0 <? d)%Z eqn:E; [reflexivity|].
    destruct b; cbn [brace_loop]; [reflexivity | now rewrite E].
  - cbn [app brace_loop].
    destruct (0 <? d)%Z eqn:E; [apply IH|].
    cbn [fst]. now rewrite E.
Qed.

(** X15: when the scan stops at a closing brace, text appended after the
    input does not change its result; when it ran out of text, the scan
    of the longer text is the loop continued over the appended text from
    the count reached. *)
Theorem brace_scan_app (code extra : text) (start : nat) :
  start <= length code ->
  (fst (brace_scan code start) = 0%Z ->
   brace_scan (code ++ extra) start = brace_scan code start) /\
  ((0 < fst (brace_scan code start))%Z ->
   brace_scan (code ++ extra) start
   = brace_loop extra (fst (brace_scan code start)) (length code)).
Proof.
  intros Hstart. unfold brace_scan.
  rewrite skipn_app. replace (start - length code) with 0 by lia.
  cbn [skipn]. rewrite brace_loop_app.
  split.
  - intros ->. reflexivity.
  - intros Hpos.
    destruct (0 <? fst (brace_loop (skipn start code) 1 start))%Z eqn:E;
      [| apply Z.ltb_ge in E; lia].
    f_equal.
    destruct (brace_loop_spec (skipn start code) 1%Z start ltac:(lia))
      as (n & Hn & He & _ & _ & [(Hz & _) | (_ & Hlen)]); [lia|].
    rewrite He, Hlen, length_skipn. lia.
Qed.

Lemma brace_scan_app_witness :
  brace_scan (("{ a(); { b(); } c(); }" : text) ++ " more { text") 1
  = brace_scan "{ a(); { b(); } c(); }" 1.
Proof.
  apply (proj1 (brace_scan_app "{ a(); { b(); } c(); }" " more { text" 1
                  ltac:(simpl; lia))).
  reflexivity.
Defined.

(** ** The recipes of the build *)

Lemma includes_intro (p s : text) (m : nat) :
  JS.startsWith p (skipn m s) = true -> JS.includes p s = true.
Proof.
  intros H. unfold JS.includes.
  destruct (JS.indexOf p s) eqn:E; [reflexivity|].
  destruct (Nat.le_gt_cases m (length s)) as [Hle | Hgt].
  - rewrite (indexOf_None _ _ _ E Hle) in H. discriminate.
  - rewrite skipn_all2 in H by lia.
    destruct p; [|discriminate].
    destruct s; discriminate.
Qed.

Lemma startsWith_skipn (a q s : text) :
  JS.startsWith (a ++ q) s = true -> JS.startsWith q (skipn (length a) s) = true.
Proof.
  revert s; induction a as [|c a IH]; intros s H; [exact H|].
  destruct s as [|b s]; [discriminate|].
  simpl in H. apply andb_prop in H as [_ H]. now apply IH.
Qed.

(** A text containing [a ++ q ++ b] contains [q]. *)
Lemma includes_infix (a q b s : text) :
  JS.includes (a ++ q ++ b) s = true -> JS.includes q s = true.
Proof.
  unfold JS.includes at 1.
  destruct (JS.indexOf (a ++ q ++ b) s) as [n|] eqn:E; [|discriminate].
  intros _. destruct (indexOf_Some _ _ _ E) as (_ & Hat & _).
  apply startsWith_skipn in Hat. apply startsWith_app_l in Hat.
  rewrite skipn_skipn in Hat. now apply includes_intro in Hat.
Qed.


Lemma startsWith_normalized (q s : text) :
  slash_free q = true ->
  JS.startsWith q (Filter.normalizePath s) = true -> JS.startsWith q s = true.
Proof.
  revert s; induction q as [|a q IH]; intros s Hq H; [reflexivity|].
  destruct s as [|b s]; [discriminate|].
  simpl in Hq, H. apply andb_prop in Hq as [Ha Hq]. apply andb_prop in H as [Hab H].
  simpl. rewrite (IH s Hq H), andb_true_r.
  destruct (Ascii.eqb b "\"); [|exact Hab].
  apply Ascii.eqb_eq in Hab. subst a. discriminate.
Qed.

Lemma includes_normalized (q s : text) :
  slash_free q = true ->
  JS.includes q (Filter.normalizePath s) = true -> JS.includes q s = true.
Proof.
  intros Hq. unfold JS.includes at 1.
  destruct (JS.indexOf q (Filter.normalizePath s)) as [n|] eqn:E; [|discriminate].
  intros _. destruct (indexOf_Some _ _ _ E) as (_ & Hat & _).
  unfold Filter.normalizePath in Hat. rewrite skipn_map in Hat.
  apply (startsWith_normalized q (skipn n s) Hq) in Hat.
  now apply includes_intro in Hat.
Qed.

(** X16: in build mode, every identity that the export-default filter
    accepts has a case in the [switch], so the branch without a recipe is
    never taken for an accepted file; and a file accepted through the
    checkbox pattern gets the checkbox case. *)
Theorem export_accepted_has_recipe (st : State) (id : text) :
  accepts (fixExportDefaultFilter (config "build" st)) id = true ->
  dispatch id <> None /\
  (JS.includes "/naive-ui/es/checkbox/src/Checkbox.mjs" (Filter.normalizePath id) = true ->
   dispatch id = Some Checkbox).
Proof.
  unfold accepts, config. change (JS.text_eqb "build" "build") with true.
  cbn [fixExportDefaultFilter call_filter].
  unfold Filter.matches, Filter.createFilter.
  destruct (JS.includes [Ascii.zero] id); [discriminate|].
  cbn [existsb length Nat.eqb]. rewrite !test_lit, !orb_false_r.
  intros H.
  assert (Hc : JS.includes "/naive-ui/es/checkbox/src/Checkbox.mjs"
                 (Filter.normalizePath id) = true -> JS.includes "checkbox" id = true).
  { intros Hin. apply includes_normalized; [reflexivity|].
    exact (includes_infix "/naive-ui/es/" "checkbox" "/src/Checkbox.mjs" _ Hin). }
  assert (Hb : JS.includes "/naive-ui/es/back-top/src/BackTop.mjs"
                 (Filter.normalizePath id) = true -> JS.includes "back-top" id = true).
  { intros Hin. apply includes_normalized; [reflexivity|].
    exact (includes_infix "/naive-ui/es/" "back-top" "/src/BackTop.mjs" _ Hin). }
  assert (Hr : JS.includes "/naive-ui/es/rate/src/Rate.mjs"
                 (Filter.normalizePath id) = true -> JS.includes "rate" id = true).
  { intros Hin. apply includes_normalized; [reflexivity|].
    exact (includes_infix "/naive-ui/es/" "rate" "/src/Rate.mjs" _ Hin). }
  assert (Hs : JS.includes "/naive-ui/es/result/src/Result.mjs"
                 (Filter.normalizePath id) = true -> JS.includes "result" id = true).
  { intros Hin. apply includes_normalized; [reflexivity|].
    exact (includes_infix "/naive-ui/es/" "result" "/src/Result.mjs" _ Hin). }
  split.
  - unfold dispatch.
    destruct (JS.includes "/naive-ui/es/checkbox/src/Checkbox.mjs" _);
      [rewrite Hc by reflexivity; discriminate|].
    destruct (JS.includes "/naive-ui/es/back-top/src/BackTop.mjs" _).
    { rewrite Hb by reflexivity. destruct (JS.includes "checkbox" id); discriminate. }
    destruct (JS.includes "/naive-ui/es/rate/src/Rate.mjs" _).
    { rewrite Hr by reflexivity.
      destruct (JS.includes "checkbox" id); [discriminate|].
      destruct (JS.includes "back-top" id); discriminate. }
    destruct (JS.includes "/naive-ui/es/result/src/Result.mjs" _); [|discriminate].
    rewrite Hs by reflexivity.
    destruct (JS.includes "checkbox" id); [discriminate|].
    destruct (JS.includes "back-top" id); [discriminate|].
    destruct (JS.includes "rate" id); discriminate.
  - intros Hin. unfold dispatch. now rewrite (Hc Hin).
Qed.

Lemma export_accepted_has_recipe_witness :
  dispatch "C:\app\node_modules\naive-ui\es\rate\src\Rate.mjs" <> None /\
  (JS.includes "/naive-ui/es/checkbox/src/Checkbox.mjs"
     (Filter.normalizePath "C:\app\node_modules\naive-ui\es\rate\src\Rate.mjs") = true ->
   dispatch "C:\app\node_modules\naive-ui\es\rate\src\Rate.mjs" = Some Checkbox).
Proof.
  apply (export_accepted_has_recipe initial
           "C:\app\node_modules\naive-ui\es\rate\src\Rate.mjs").
  vm_compute. reflexivity.
Defined.

(** In a build, an identity that no case of the [switch] applies to is one
    that the export-default filter does not accept: the plugin declines it
    and the text passes through the stage as it came. *)
Lemma export_default_unrecognized
    (transformMap : TransformMap) (st : State) (code id : text) :
  skipFix st = false -> dispatch id = None ->
  export_default_transform transformMap (config "build" st) code id = Ok None /\
  after_stage code None = code.
Proof.
  intros Hskip Hnone. split; [|reflexivity].
  apply (proj2 (proj2 (proj2 (proj2 (dispatch_order id))))) in Hnone
    as (Hc & Hb & Hr & Hs).
  assert (Hno : forall before name after : text,
             slash_free name = true ->
             JS.includes name id = false ->
             JS.includes (before ++ name ++ after) (Filter.normalizePath id) = false).
  { intros before name after Hplain Hname.
    destruct (JS.includes (before ++ name ++ after) (Filter.normalizePath id)) eqn:E;
      [|reflexivity].
    apply includes_infix, (includes_normalized _ _ Hplain) in E. congruence. }
  unfold export_default_transform, config.
  change (JS.text_eqb "build" "build") with true.
  cbn [skipFix fixExportDefaultFilter call_filter bind]. rewrite Hskip.
  unfold Filter.matches, Filter.createFilter.
  destruct (JS.includes [Ascii.zero] id); [reflexivity|].
  cbn [existsb length Nat.eqb]. rewrite !test_lit.
  assert (H1 : JS.includes "/naive-ui/es/checkbox/src/Checkbox.mjs"
                 (Filter.normalizePath id) = false)
    by exact (Hno "/naive-ui/es/" "checkbox" "/src/Checkbox.mjs" eq_refl Hc).
  assert (H2 : JS.includes "/naive-ui/es/back-top/src/BackTop.mjs"
                 (Filter.normalizePath id) = false)
    by exact (Hno "/naive-ui/es/" "back-top" "/src/BackTop.mjs" eq_refl Hb).
  assert (H3 : JS.includes "/naive-ui/es/rate/src/Rate.mjs"
                 (Filter.normalizePath id) = false)
    by exact (Hno "/naive-ui/es/" "rate" "/src/Rate.mjs" eq_refl Hr).
  assert (H4 : JS.includes "/naive-ui/es/result/src/Result.mjs"
                 (Filter.normalizePath id) = false)
    by exact (Hno "/naive-ui/es/" "result" "/src/Result.mjs" eq_refl Hs).
  rewrite H1, H2, H3, H4. reflexivity.
Qed.


(** ** More on the virtual overlay *)

(** X17: for a virtual root without a dollar sign, [resolveId] maps the
    prefixed name to the file of that name under the root, and [load] of
    that identity returns the content read when the file exists, throws
    what the read throws, and declines when the file does not exist. *)
Theorem virtual_module_round_trip (VirtualPath name : text) (node : Node) :
  dollar_free VirtualPath = true ->
  let file := VirtualPath ++ "/" ++ name in
  resolveId VirtualPath (virtual_prefix ++ name) = Some file /\
  (existsSync node file = true ->
   forall content, readFileSync node file = Ok content ->
                   load VirtualPath node file = Ok (Some content)) /\
  (existsSync node file = true ->
   forall message, readFileSync node file = Throw message ->
                   load VirtualPath node file = Throw message) /\
  (existsSync node file = false -> load VirtualPath node file = Ok None).
Proof.
  intros Hfree file. split; [now apply resolveId_joins|].
  unfold load. subst file. rewrite startsWith_app.
  repeat split.
  - intros -> content ->. reflexivity.
  - intros -> message ->. reflexivity.
  - intros ->. reflexivity.
Qed.


Lemma virtual_module_round_trip_witness :
  resolveId "/pkg/src/virtual" "virtual:fixNaiveuiIcon-path:deepCloneVnode.js"
  = Some ("/pkg/src/virtual/deepCloneVnode.js" : text) /\
  load "/pkg/src/virtual" node_with_helper "/pkg/src/virtual/deepCloneVnode.js"
  = Ok (Some ("export default function deepCloneVnode() {}" : text)).
Proof.
  destruct (virtual_module_round_trip "/pkg/src/virtual" "deepCloneVnode.js"
              node_with_helper eq_refl) as (Hres & Hload & _).
  split; [exact Hres|].
  apply Hload; reflexivity.
Defined.

(** X18: for a virtual root without a dollar sign, [resolveId] sends
    different names to different identities; and, for every root, it
    declines exactly the identities that do not start with the prefix. *)
Theorem resolveId_injective (VirtualPath : text) :
  (dollar_free VirtualPath = true ->
   forall a b : text,
     resolveId VirtualPath (virtual_prefix ++ a)
     = resolveId VirtualPath (virtual_prefix ++ b) -> a = b) /\
  (forall id : text,
     resolveId VirtualPath id = None <-> JS.startsWith virtual_prefix id = false).
Proof.
  split.
  - intros Hfree a b. rewrite !resolveId_joins by exact Hfree.
    intros [= H]. apply app_inv_head in H. now injection H.
  - intros id. unfold resolveId.
    destruct (JS.startsWith virtual_prefix id); split; try discriminate; reflexivity.
Qed.

Lemma resolveId_injective_witness :
  ("deepCloneVnode.js" : text) = "deepCloneVnode.js".
Proof.
  apply (proj1 (resolveId_injective "/pkg/src/virtual") eq_refl
           "deepCloneVnode.js" "deepCloneVnode.js").
  reflexivity.
Defined.



(** ** The replaceable plugin on every text *)

(** A match of a pattern that ends with a literal character ends with that
    character. *)
Lemma greedy_last (c : ascii) (p : ascii -> bool) (k : text -> option nat) :
  (forall s l, k s = Some l -> exists j, l = S j /\ nth_error s j = Some c) ->
  forall s l, Regex.greedy p k s = Some l ->
              exists j, l = S j /\ nth_error s j = Some c.
Proof.
  intros Hk. induction s as [|a s IH]; intros l; simpl; [apply Hk|].
  destruct (p a); [|apply Hk].
  destruct (Regex.greedy p k s) as [n|]; [|apply Hk].
  intros [= <-]. destruct (IH n eq_refl) as (j & -> & Hj).
  exists (S j). split; [reflexivity | exact Hj].
Qed.

Lemma match_here_last (c : ascii) (re : Regex.regex) :
  forall s l,
    Regex.match_here (re ++ [Regex.Item (Ascii.eqb c) Regex.Once]) s = Some l ->
    exists j, l = S j /\ nth_error s j = Some c.
Proof.
  induction re as [|it re IH]; intros s l; cbn [app Regex.match_here].
  - cbn [Regex.quant Regex.accepts].
    destruct s as [|a s]; [discriminate|].
    destruct (Ascii.eqb c a) eqn:E; [|discriminate].
    intros [= <-]. exists 0. apply Ascii.eqb_eq in E. now subst a.
  - destruct (Regex.quant it).
    + destruct s as [|a s]; [discriminate|].
      destruct (Regex.accepts it a); [|discriminate].
      destruct (Regex.match_here _ s) as [n|] eqn:E; [|discriminate].
      intros [= <-]. destruct (IH _ _ E) as (j & -> & Hj).
      exists (S j). split; [reflexivity | exact Hj].
    + apply greedy_last. exact IH.
    + destruct s as [|a s]; [discriminate|].
      destruct (Regex.accepts it a); [|discriminate].
      destruct (Regex.greedy _ _ s) as [n|] eqn:E; [|discriminate].
      intros [= <-]. destruct (greedy_last c _ _ IH _ _ E) as (j & -> & Hj).
      exists (S j). split; [reflexivity | exact Hj].
Qed.

Lemma nth_error_slice (s : text) (a b k : nat) (c : ascii) :
  nth_error (JS.slice s a b) k = Some c -> nth_error s (a + k) = Some c.
Proof.
  unfold JS.slice. intros H.
  assert (Hk : k < b - a).
  { assert (Hsome : nth_error (firstn (b - a) (skipn a s)) k <> None)
      by congruence.
    apply nth_error_Some in Hsome. rewrite length_firstn in Hsome. lia. }
  rewrite nth_error_firstn in H.
  destruct (k <? b - a) eqn:E; [|apply Nat.ltb_ge in E; lia].
  now rewrite nth_error_skipn_at in H.
Qed.

(** The character before the insertion offset is an opening brace. *)
Lemma insertion_offset_brace (code : text) (p : nat) :
  insertion_offset code = Some p ->
  exists j, p = S j /\ nth_error code j = Some "{"%char.
Proof.
  unfold insertion_offset.
  destruct (Regex.exec Regex.replaceable_signature code) as [[startIdx len]|];
    [|discriminate].
  destruct (Regex.exec Regex.setup_opener _) as [[index setup_length]|] eqn:Hex;
    [|discriminate].
  intros [= <-].
  destruct (exec_Some _ _ _ _ Hex) as (_ & Hat & _).
  change Regex.setup_opener
    with ((Regex.lit "setup" ++ [Regex.Item Regex.white_space Regex.Star]
           ++ Regex.lit "()" ++ [Regex.Item Regex.white_space Regex.Star])
          ++ [Regex.Item (Ascii.eqb "{") Regex.Once]) in Hat.
  destruct (match_here_last _ _ _ _ Hat) as (j & -> & Hj).
  rewrite nth_error_skipn_at in Hj. apply nth_error_slice in Hj.
  exists (startIdx + len + (index + j)). split; [lia | exact Hj].
Qed.

Lemma startsWith_nth (p s : text) (k : nat) :
  JS.startsWith p s = true -> k < length p -> nth_error s k = nth_error p k.
Proof.
  revert s k; induction p as [|a p IH]; intros s k H Hk; [simpl in Hk; lia|].
  destruct s as [|b s]; [discriminate|].
  simpl in H. apply andb_prop in H as [Hab H].
  apply Ascii.eqb_eq in Hab. subst b.
  destruct k as [|k]; [reflexivity|].
  simpl. apply IH; [exact H | simpl in Hk; lia].
Qed.

(** The insertion offset is never inside the renamed literal or at its
    end. *)
Lemma insertion_offset_outside (code : text) (n p : nat) :
  JS.indexOf replaceable_literal code = Some n ->
  insertion_offset code = Some p ->
  p <= n \/ n + 32 < p.
Proof.
  intros Hlit Hoff.
  destruct (insertion_offset_brace _ _ Hoff) as (j & -> & Hj).
  destruct (indexOf_Some _ _ _ Hlit) as (_ & Hat & _).
  destruct (Nat.lt_ge_cases j n) as [Hlt | Hge]; [left; lia|].
  destruct (Nat.lt_ge_cases j (n + 32)) as [Hin | Hout]; [|right; lia].
  exfalso.
  pose proof (startsWith_nth _ _ (j - n) Hat ltac:(simpl; lia)) as Hk.
  rewrite nth_error_skipn_at in Hk.
  replace (n + (j - n)) with j in Hk by lia.
  rewrite Hj in Hk.
  assert (Hnone : forall k, k < 32 ->
            nth_error replaceable_literal k <> Some "{"%char).
  { intros k Hlt.
    do 32 (destruct k as [|k]; [discriminate|]). lia. }
  apply (Hnone (j - n)); [lia | now symmetry].
Qed.

Lemma appendLeft_overwritten_before (s : text) (a b p : nat) (content inserted : text) :
  0 < p -> p <= a -> a < b -> b <= length s ->
  exists m,
    MagicString.appendLeft p inserted
      (MagicString.mk s [] [] (overwritten s a b content)) = Ok m /\
    MagicString.toString m
    = firstn p s ++ inserted ++ JS.slice s p a ++ content ++ skipn b s.
Proof.
  intros H0 Hpa Hab Hb.
  unfold MagicString.appendLeft, overwritten,
    MagicString._split, MagicString.byStart, MagicString.byEnd, plain.
  destruct (Nat.eq_dec p a) as [-> | Hne];
    destruct (Nat.eq_dec b (length s)) as [-> | Hbl]; ms_compute; ms_texts.
  all: eexists; split; [reflexivity|].
  all: unfold MagicString.toString, MagicString.chunk_toString, JS.slice;
    cbn -[skipn firstn Nat.sub]; rewrite ?app_nil_r, ?skipn_all, <- ?app_assoc.
  all: rewrite ?Nat.sub_diag, ?firstn_firstn, ?skipn_firstn_comm, ?app_nil_r.
  all: rewrite ?(Nat.min_l p a) by lia.
  all: reflexivity.
Qed.

Lemma replaceable_run (st : State) (code id : text) :
  skipFix st = false ->
  call_filter (fixReplaceableFilter st) id = Ok true ->
  exists o, replaceable_transform st code id = Ok (Some o) /\
            Output.code o = patched code.
Proof.
  intros Hskip Hfilter.
  destruct (replace_literal code) as (m & Hm & Hstr & Hmeq).
  assert (Hrun : forall m',
     match insertion_offset code with
     | Some p => MagicString.appendLeft p binding m
     | None => Ok m
     end = Ok m' ->
     replaceable_transform st code id = Ok (Some (output_of id m'))).
  { intros m' Hm'. unfold replaceable_transform.
    rewrite Hskip, Hfilter. cbn [bind negb].
    fold replaceable_literal replaceable_renamed. rewrite Hm. cbn [bind].
    unfold insertion_offset in Hm'.
    destruct (Regex.exec Regex.replaceable_signature code) as [[startIdx len]|];
      [| now rewrite Hm'].
    destruct (Regex.exec Regex.setup_opener _) as [[index setup_length]|];
      now rewrite Hm'. }
  unfold patched. rewrite renamed_eq in Hstr.
  destruct (insertion_offset code) as [p|] eqn:Hoff.
  - pose proof (insertion_offset_range _ _ Hoff) as Hp.
    destruct (JS.indexOf replaceable_literal code) as [n|] eqn:Hlit.
    + destruct (indexOf_Some _ _ _ Hlit) as (_ & Hat & _).
      apply startsWith_inv in Hat.
      assert (Hlen : n + 32 <= length code).
      { apply (f_equal (@length ascii)) in Hat.
        rewrite length_app, length_skipn in Hat.
        change (length replaceable_literal) with 32 in Hat. lia. }
      subst m.
      destruct (insertion_offset_outside _ _ _ Hlit Hoff) as [Hbefore | Hafter].
      * destruct (appendLeft_overwritten_before code n (n + 32) p
                    replaceable_renamed binding ltac:(lia) Hbefore ltac:(lia) Hlen)
          as (m' & Hm' & Hs').
        exists (output_of id m'). split; [now apply Hrun|].
        cbn [output_of Output.code]. rewrite Hs'.
        destruct (p <=? n) eqn:E; [reflexivity | apply Nat.leb_gt in E; lia].
      * destruct (appendLeft_overwritten code n (n + 32) p
                    replaceable_renamed binding ltac:(lia) Hafter ltac:(lia))
          as (m' & Hm' & Hs').
        exists (output_of id m'). split; [now apply Hrun|].
        cbn [output_of Output.code]. rewrite Hs'.
        destruct (p <=? n) eqn:E; [apply Nat.leb_le in E; lia | reflexivity].
    + subst m.
      destruct (appendLeft_create code p binding ltac:(lia) ltac:(lia))
        as (m' & Hm' & Hs').
      exists (output_of id m'). split; [now apply Hrun | exact Hs'].
  - exists (output_of id m). split; [now apply Hrun|].
    cbn [output_of Output.code]. rewrite Hstr.
    destruct (JS.indexOf replaceable_literal code); reflexivity.
Qed.


(** X19: once its filter is assigned, the replaceable plugin never throws,
    whatever the text: it declines exactly when the skip flag is set or
    the filter rejects the identity, and otherwise returns [patched], the
    input with the literal renamed at its first occurrence and the binding
    put at the insertion offset. *)
Theorem replaceable_transform_total (st : State) (code id : text) (filter : Filter.t) :
  fixReplaceableFilter st = Some filter ->
  exists r,
    replaceable_transform st code id = Ok r /\
    (r = None <-> skipFix st = true \/ Filter.matches filter id = false) /\
    (forall o, r = Some o -> Output.code o = patched code).
Proof.
  intros Hf.
  destruct (skipFix st) eqn:Hskip.
  - exists None. unfold replaceable_transform. rewrite Hskip.
    repeat split; [now left | discriminate].
  - destruct (Filter.matches filter id) eqn:Hm.
    + destruct (replaceable_run st code id Hskip) as (o & Hrun & Hcode).
      { rewrite Hf. cbn [call_filter]. now rewrite Hm. }
      exists (Some o). repeat split; [exact Hrun | discriminate | | ].
      * intros [H | H]; discriminate.
      * now intros o' [= <-].
    + exists None. unfold replaceable_transform.
      rewrite Hskip, Hf. cbn [call_filter bind]. rewrite Hm.
      repeat split; [now right | discriminate].
Qed.

Lemma replaceable_transform_total_witness :
  exists r,
    replaceable_transform (config "serve" initial)
      "function replaceable (name, icon) { setup() { function replaceable(name, icon) } }"
      "/app/node_modules/.vite/deps/naive-ui.js" = Ok r /\
    (r = None <->
     skipFix (config "serve" initial) = true \/
     Filter.matches (Filter.createFilter [Regex.lit "/.vite/deps/naive-ui.js"])
       "/app/node_modules/.vite/deps/naive-ui.js" = false) /\
    (forall o, r = Some o ->
       Output.code o =
       patched "function replaceable (name, icon) { setup() { function replaceable(name, icon) } }").
Proof.
  apply (replaceable_transform_total (config "serve" initial)
           "function replaceable (name, icon) { setup() { function replaceable(name, icon) } }"
           "/app/node_modules/.vite/deps/naive-ui.js"
           (Filter.createFilter [Regex.lit "/.vite/deps/naive-ui.js"])).
  reflexivity.
Defined.

Lemma patched_length (code : text) :
  length (patched code)
  = length code
    + (match JS.indexOf replaceable_literal code with Some _ => 2 | None => 0 end)
    + (match insertion_offset code with Some _ => length binding | None => 0 end).
Proof.
  unfold patched.
  destruct (JS.indexOf replaceable_literal code) as [n|] eqn:Hlit.
  - destruct (indexOf_Some _ _ _ Hlit) as (_ & Hat & _).
    apply startsWith_inv in Hat.
    assert (Hlen : n + 32 <= length code).
    { apply (f_equal (@length ascii)) in Hat.
      rewrite length_app, length_skipn in Hat.
      change (length replaceable_literal) with 32 in Hat. lia. }
    destruct (insertion_offset code) as [p|] eqn:Hoff.
    + pose proof (insertion_offset_range _ _ Hoff) as Hp.
      destruct (insertion_offset_outside _ _ _ Hlit Hoff) as [Hb | Ha].
      * destruct (p <=? n) eqn:E; [|apply Nat.leb_gt in E; lia].
        unfold JS.slice.
        rewrite !length_app, !length_firstn, !length_skipn.
        change (length replaceable_renamed) with 34. lia.
      * destruct (p <=? n) eqn:E; [apply Nat.leb_le in E; lia|].
        unfold JS.slice.
        rewrite !length_app, !length_firstn, !length_skipn.
        change (length replaceable_renamed) with 34. lia.
    + rewrite !length_app, !length_firstn, !length_skipn.
      change (length replaceable_renamed) with 34. lia.
  - destruct (insertion_offset code) as [p|] eqn:Hoff; [|lia].
    pose proof (insertion_offset_range _ _ Hoff) as Hp.
    rewrite !length_app, !length_firstn, !length_skipn. lia.
Qed.

(** X20: the text that the replaceable plugin returns is longer than the
    input by 2 when the literal is renamed plus 49 when the binding is
    inserted, so by at most 51, and never shorter. *)
Theorem replaceable_transform_length (st : State) (code id : text) (o : Output.t) :
  replaceable_transform st code id = Ok (Some o) ->
  length (Output.code o)
  = length code
    + (match JS.indexOf replaceable_literal code with Some _ => 2 | None => 0 end)
    + (match insertion_offset code with Some _ => 49 | None => 0 end) /\
  length code <= length (Output.code o) <= length code + 51.
Proof.
  intros Hrun.
  assert (Hcode : Output.code o = patched code).
  { unfold replaceable_transform in Hrun.
    destruct (skipFix st) eqn:Hskip; [discriminate|].
    destruct (call_filter (fixReplaceableFilter st) id) as [[|]|] eqn:Hf;
      cbn [bind negb] in Hrun; try discriminate.
    destruct (replaceable_run st code id Hskip Hf) as (o' & Hrun' & Hc).
    unfold replaceable_transform in Hrun'. rewrite Hskip, Hf in Hrun'.
    cbn [bind negb] in Hrun'. rewrite Hrun in Hrun'.
    now injection Hrun' as <-. }
  rewrite Hcode, patched_length.
  change (length binding) with 49.
  destruct (JS.indexOf replaceable_literal code), (insertion_offset code); lia.
Qed.


Lemma replaceable_transform_length_witness :
  let code : text := "function replaceable(name, icon) { return { setup() { return icon } } }" in
  length (Output.code sample_output)
  = length code
    + (match JS.indexOf replaceable_literal code with Some _ => 2 | None => 0 end)
    + (match insertion_offset code with Some _ => 49 | None => 0 end) /\
  length code <= length (Output.code sample_output) <= length code + 51.
Proof.
  apply (replaceable_transform_length (config "serve" initial)
           "function replaceable(name, icon) { return { setup() { return icon } } }"
           "/app/node_modules/.vite/deps/naive-ui.js").
  vm_compute. reflexivity.
Defined.

(** ** Text before the function *)


Lemma startsWith_compatible (p q t s : text) :
  JS.startsWith (p ++ q) (t ++ s) = true -> compatible p t = true.
Proof.
  unfold compatible. revert t; induction p as [|a p IH]; intros t H;
    [reflexivity|].
  destruct t as [|b t]; [reflexivity|].
  simpl in H. apply andb_prop in H as [Hab H].
  apply Ascii.eqb_eq in Hab. subst b.
  simpl. rewrite Ascii.eqb_refl. exact (IH t H).
Qed.

Lemma startsWith_clear (p q t s : text) :
  compatible p t = false -> JS.startsWith (p ++ q) (t ++ s) = false.
Proof.
  intros H. destruct (JS.startsWith (p ++ q) (t ++ s)) eqn:E; [|reflexivity].
  apply startsWith_compatible in E. congruence.
Qed.

Lemma indexOf_after (p q before s : text) :
  clear_of p before = true ->
  JS.indexOf (p ++ q) (before ++ s)
  = option_map (Nat.add (length before)) (JS.indexOf (p ++ q) s).
Proof.
  induction before as [|c before IH]; intros H.
  - cbn [app length]. now destruct (JS.indexOf (p ++ q) s).
  - simpl in H. apply andb_prop in H as [Hc H].
    apply negb_true_iff in Hc.
    change ((c :: before) ++ s) with (c :: (before ++ s)).
    cbn [JS.indexOf].
    replace (JS.startsWith (p ++ q) (c :: before ++ s)) with false
      by (symmetry; exact (startsWith_clear p q (c :: before) s Hc)).
    rewrite (IH H). now destruct (JS.indexOf (p ++ q) s).
Qed.

Lemma exec_after (p : text) (re : Regex.regex) (before s : text) :
  clear_of p before = true ->
  Regex.exec (Regex.lit p ++ re) (before ++ s)
  = option_map (fun m => (length before + fst m, snd m))
      (Regex.exec (Regex.lit p ++ re) s).
Proof.
  induction before as [|c before IH]; intros H.
  - cbn [app length].
    destruct (Regex.exec (Regex.lit p ++ re) s) as [[i l]|]; reflexivity.
  - simpl in H. apply andb_prop in H as [Hc H].
    apply negb_true_iff in Hc.
    change ((c :: before) ++ s) with (c :: (before ++ s)).
    cbn [Regex.exec].
    rewrite match_here_lit.
    replace (JS.startsWith p (c :: before ++ s)) with false.
    + rewrite (IH H).
      destruct (Regex.exec (Regex.lit p ++ re) s) as [[i l]|]; reflexivity.
    + symmetry. rewrite <- (app_nil_r p).
      exact (startsWith_clear p [] (c :: before) s Hc).
Qed.

Lemma brace_loop_shift (rest : text) (k : nat) :
  forall (d : Z) (i : nat),
  brace_loop rest d (k + i)
  = (fst (brace_loop rest d i), k + snd (brace_loop rest d i)).
Proof.
  induction rest as [|c rest IH]; intros d i; cbn [brace_loop]; [reflexivity|].
  destruct (0 <? d)%Z; [|reflexivity].
  rewrite <- IH. f_equal. lia.
Qed.

Lemma brace_scan_after (before code : text) (e : nat) :
  snd (brace_scan (before ++ code) (length before + e))
  = length before + snd (brace_scan code e).
Proof.
  unfold brace_scan. rewrite skipn_app, skipn_all2 by lia.
  replace (length before + e - length before) with e by lia.
  cbn [app]. now rewrite brace_loop_shift.
Qed.

Lemma slice_after (before code : text) (a b : nat) :
  JS.slice (before ++ code) (length before + a) (length before + b)
  = JS.slice code a b.
Proof.
  unfold JS.slice. rewrite skipn_app, skipn_all2 by lia.
  replace (length before + a - length before) with a by lia.
  cbn [app]. f_equal. lia.
Qed.

Lemma insertion_offset_after (before code : text) :
  clear_of "function replaceable" before = true ->
  insertion_offset (before ++ code)
  = option_map (Nat.add (length before)) (insertion_offset code).
Proof.
  intros H. unfold insertion_offset, Regex.replaceable_signature.
  rewrite (exec_after "function replaceable" _ before code H).
  destruct (Regex.exec _ code) as [[startIdx len]|]; [|reflexivity].
  cbn [option_map fst snd].
  rewrite <- Nat.add_assoc, brace_scan_after, slice_after.
  destruct (Regex.exec Regex.setup_opener _) as [[index setup_length]|];
    [|reflexivity].
  cbn [option_map]. f_equal. lia.
Qed.

Lemma firstn_after (before code : text) (k : nat) :
  firstn (length before + k) (before ++ code) = before ++ firstn k code.
Proof.
  rewrite firstn_app, firstn_all2 by lia. do 2 f_equal. lia.
Qed.

Lemma skipn_after (before code : text) (k : nat) :
  skipn (length before + k) (before ++ code) = skipn k code.
Proof.
  rewrite skipn_app, skipn_all2 by lia. cbn [app]. f_equal. lia.
Qed.

Lemma patched_after (before code : text) :
  clear_of "function replaceable" before = true ->
  patched (before ++ code) = before ++ patched code.
Proof.
  intros H. unfold patched.
  rewrite (insertion_offset_after before code H).
  change replaceable_literal
    with (("function replaceable" : text) ++ ("(name, icon)" : text)).
  rewrite (indexOf_after "function replaceable" "(name, icon)" before code H).
  destruct (JS.indexOf _ code) as [n|];
    destruct (insertion_offset code) as [p|]; cbn [option_map].
  - replace (length before + p <=? length before + n) with (p <=? n)
      by (destruct (Nat.leb_spec p n);
          [symmetry; apply Nat.leb_le | symmetry; apply Nat.leb_gt]; lia).
    rewrite <- !Nat.add_assoc, !firstn_after, !skipn_after, !slice_after.
    destruct (p <=? n); now rewrite <- !app_assoc.
  - rewrite <- !Nat.add_assoc, !firstn_after, !skipn_after.
    now rewrite <- !app_assoc.
  - rewrite !firstn_after, !skipn_after. now rewrite <- !app_assoc.
  - reflexivity.
Qed.

(** X21: text put before the input, none of whose ends can begin
    [function replaceable], comes out unchanged in front of what the
    replaceable plugin returns for the input alone. *)
Theorem replaceable_transform_after (st : State) (before code id : text) :
  skipFix st = false ->
  call_filter (fixReplaceableFilter st) id = Ok true ->
  clear_of "function replaceable" before = true ->
  exists o o',
    replaceable_transform st code id = Ok (Some o) /\
    replaceable_transform st (before ++ code) id = Ok (Some o') /\
    Output.code o' = before ++ Output.code o.
Proof.
  intros Hskip Hfilter Hclear.
  destruct (replaceable_run st code id Hskip Hfilter) as (o & Hrun & Hcode).
  destruct (replaceable_run st (before ++ code) id Hskip Hfilter)
    as (o' & Hrun' & Hcode').
  exists o, o'. repeat split; [exact Hrun | exact Hrun' |].
  now rewrite Hcode', Hcode, patched_after.
Qed.

(** X22: on a file that the replaceable filter accepts, the replaceable
    plugin run on the output of the pre plugin returns the import line
    followed by what it returns on the input itself. *)
Theorem replaceable_after_pre (st : State) (code id : text) :
  skipFix st = false ->
  call_filter (fixReplaceableFilter st) id = Ok true ->
  exists o1 o2 o,
    pre_transform st code id = Ok (Some o1) /\
    replaceable_transform st (Output.code o1) id = Ok (Some o2) /\
    replaceable_transform st code id = Ok (Some o) /\
    Output.code o2 = import_line ++ Output.code o.
Proof.
  intros Hskip Hfilter.
  destruct (pre_transform_patches st code id Hskip (or_introl Hfilter))
    as (o1 & Hpre & Hcode1).
  destruct (replaceable_run st code id Hskip Hfilter) as (o & Hrun & Hcode).
  destruct (replaceable_run st (import_line ++ code) id Hskip Hfilter)
    as (o2 & Hrun2 & Hcode2).
  exists o1, o2, o. rewrite Hcode1.
  repeat split; [exact Hpre | exact Hrun2 | exact Hrun |].
  rewrite Hcode2, Hcode. apply patched_after. vm_compute. reflexivity.
Qed.

Lemma replaceable_transform_after_witness :
  exists o o',
    replaceable_transform (config "serve" initial)
      "function replaceable(name, icon) { setup() { } }"
      "/app/node_modules/.vite/deps/naive-ui.js" = Ok (Some o) /\
    replaceable_transform (config "serve" initial)
      (("// function helpers" : text) ++ "function replaceable(name, icon) { setup() { } }")
      "/app/node_modules/.vite/deps/naive-ui.js" = Ok (Some o') /\
    Output.code o' = ("// function helpers" : text) ++ Output.code o.
Proof.
  apply (replaceable_transform_after (config "serve" initial)
           "// function helpers"
           "function replaceable(name, icon) { setup() { } }"
           "/app/node_modules/.vite/deps/naive-ui.js");
    vm_compute; reflexivity.
Defined.

Lemma replaceable_after_pre_witness :
  exists o1 o2 o,
    pre_transform (config "serve" initial)
      "function replaceable(name, icon) { setup() { } }"
      "/app/node_modules/.vite/deps/naive-ui.js" = Ok (Some o1) /\
    replaceable_transform (config "serve" initial) (Output.code o1)
      "/app/node_modules/.vite/deps/naive-ui.js" = Ok (Some o2) /\
    replaceable_transform (config "serve" initial)
      "function replaceable(name, icon) { setup() { } }"
      "/app/node_modules/.vite/deps/naive-ui.js" = Ok (Some o) /\
    Output.code o2 = import_line ++ Output.code o.
Proof.
  apply (replaceable_after_pre (config "serve" initial)
           "function replaceable(name, icon) { setup() { } }"
           "/app/node_modules/.vite/deps/naive-ui.js");
    vm_compute; reflexivity.
Defined.

(** ** The three stages together *)

(** X23: once [config] has run, a file that neither filter accepts comes
    out of the three stages as it went in. *)
Theorem pipeline_unmatched (transformMap : TransformMap)
    (command code id : text) (st : State) :
  let st' := config command st in
  accepts (fixReplaceableFilter st') id = false ->
  accepts (fixExportDefaultFilter st') id = false ->
  pipeline transformMap st' code id = Ok code.
Proof.
  cbn zeta. unfold accepts, config, pipeline, pre_transform,
    replaceable_transform, export_default_transform.
  destruct (JS.text_eqb command "build");
    cbn [fixReplaceableFilter fixExportDefaultFilter call_filter skipFix];
    intros -> H; rewrite ?H; destruct (skipFix st); reflexivity.
Qed.

Lemma pipeline_unmatched_witness :
  pipeline no_recipes (config "build" initial)
    "export const x = 1" "/app/src/main.ts" = Ok ("export const x = 1" : text).
Proof.
  apply (pipeline_unmatched no_recipes "build" "export const x = 1"
           "/app/src/main.ts" initial); vm_compute; reflexivity.
Defined.

(** X24: in development, on a file that both filters accept, the three
    stages give the text of the development recipe applied to the import
    line followed by the patched input. *)
Theorem pipeline_dev (transformMap : TransformMap) (st : State) (code id : text) :
  skipFix st = false -> isBuild st = false ->
  call_filter (fixReplaceableFilter st) id = Ok true ->
  call_filter (fixExportDefaultFilter st) id = Ok true ->
  pipeline transformMap st code id =
  let staged := import_line ++ patched code in
  let* magicString := transformDev transformMap (MagicString.create staged) staged in
  Ok (MagicString.toString magicString).
Proof.
  intros Hskip Hdev Hr He. unfold pipeline.
  destruct (pre_transform_patches st code id Hskip (or_introl Hr))
    as (o1 & -> & Hcode1).
  cbn [bind after_stage]. rewrite Hcode1.
  destruct (replaceable_run st (import_line ++ code) id Hskip Hr)
    as (o2 & -> & Hcode2).
  cbn [bind after_stage]. rewrite Hcode2.
  rewrite patched_after by (vm_compute; reflexivity).
  unfold export_default_transform. rewrite Hskip, He, Hdev. cbn [bind negb].
  destruct (transformDev transformMap _ _); reflexivity.
Qed.

Lemma pipeline_dev_witness :
  pipeline no_recipes (config "serve" initial)
    "function replaceable(name, icon) { setup() { } }"
    "/app/node_modules/.vite/deps/naive-ui.js" =
  let staged := import_line ++ patched "function replaceable(name, icon) { setup() { } }" in
  let* magicString := transformDev no_recipes (MagicString.create staged) staged in
  Ok (MagicString.toString magicString).
Proof.
  apply (pipeline_dev no_recipes (config "serve" initial)
           "function replaceable(name, icon) { setup() { } }"
           "/app/node_modules/.vite/deps/naive-ui.js");
    vm_compute; reflexivity.
Defined.
